(** * Light-bar candidate pipeline of [src/2/main.cpp]

    A shallow embedding of the class [ImageProcessor] (the methods that make
    up the detection pipeline) and of [main], which runs it,
    followed by the properties of the pipeline.

    - [Double]: IEEE-754 binary64 ([double]) as the Standard Library's
      [spec_float], with the conversions and comparisons the program uses.
    - [cv]: the OpenCV value types the program manipulates, and the pixel
      level operations whose meaning the properties depend on
      ([inRange], [operator|], [getStructuringElement]).
    - [OpenCV]: the remaining library routines, taken as an interface.
    - The program itself, in a state-and-exception monad over a store of
      pixel buffers ([cv::Mat] is a handle on a shared buffer). *)

From Stdlib Require Import ZArith QArith Qpower Lia Bool List.
From Stdlib Require Import Floats.SpecFloat.
From stdpp Require Import base gmap list strings pretty.

(* ===================================================================== *)
(** * Part I: definitions                                                 *)
(* ===================================================================== *)

(** ** binary64 *)

Module Double.
Local Open Scope Z_scope.

Definition prec : Z := 53.
Definition emax : Z := 1024.

(** A C++ [double]. *)
Definition double : Type := spec_float.

(** Representation invariant of a binary64 datum. *)
Definition valid (x : double) : bool := valid_binary prec emax x.

Definition is_finite (x : double) : bool :=
  match x with
  | S754_zero _ | S754_finite _ _ _ => true
  | _ => false
  end.

(** The range of a C++ [int]. *)
Definition INT_MIN : Z := - 2 ^ 31.
Definition INT_MAX : Z := 2 ^ 31 - 1.
Definition in_int (z : Z) : Prop := INT_MIN <= z <= INT_MAX.

(** [a * b] on [int]. The product is kept modulo [2 ^ 32] in the range of
    [int]: signed overflow is undefined in C++, and this is the value the
    two's complement multiplication of the usual targets leaves. *)
Definition wrap_int (z : Z) : Z := (z - INT_MIN) mod 2 ^ 32 + INT_MIN.
Definition int_mul (a b : Z) : Z := wrap_int (a * b).

(** [(double)z] for an integer [z] (also the integer literals that are
    compared with a [double], such as [50] in [area > 50]). *)
Definition of_int (z : Z) : double := binary_normalize prec emax z 0 false.

(** The literal whose value is [m * 2 ^ e]. *)
Definition literal (m e : Z) : double := binary_normalize prec emax m e false.

(** [x / y], [x < y], [x > y] on doubles. *)
Definition fdiv (x y : double) : double := SFdiv prec emax x y.
Definition flt (x y : double) : bool := SFltb x y.
Definition fgt (x y : double) : bool := SFltb y x.

(** The real number a double denotes (0 for infinities and NaN, which the
    statements below exclude through [is_finite]). *)
Definition value (x : double) : Q :=
  match x with
  | S754_finite s m e => (inject_Z (cond_Zopp s (Z.pos m)) * 2 ^ e)%Q
  | _ => 0%Q
  end.

(** [value x] in units of [2 ^ -1074], an integer for every valid double. *)
Definition scaled (x : double) : Z :=
  match x with
  | S754_finite s m e => cond_Zopp s (Z.pos m) * 2 ^ (e + 1074)
  | _ => 0
  end.

(** [(int)x]: truncation toward zero.  Outside the range of [int], and for
    infinities and NaN, the conversion is undefined in C++; the model returns
    [INT_MIN] there, the value x86 produces. *)
Definition to_int (x : double) : Z :=
  match x with
  | S754_zero _ => 0
  | S754_finite s m e =>
      let mag := if 0 <=? e then Z.pos m * 2 ^ e else Z.pos m / 2 ^ (- e) in
      let v := cond_Zopp s mag in
      if (INT_MIN <=? v) && (v <=? INT_MAX) then v else INT_MIN
  | _ => INT_MIN
  end.

(** The last step of [binary_round_aux], named so that the rounding lemmas
    can speak about it. *)
Definition finish (sx : bool) (p : shr_record * Z) : spec_float :=
  let '(mrs, e) := p in
  match shr_m mrs with
  | Z0 => S754_zero sx
  | Zpos m => if Z.leb e (emax - prec) then S754_finite sx m e else S754_infinity sx
  | _ => S754_nan
  end.

End Double.

(** ** OpenCV values *)

Module cv.
Local Open Scope Z_scope.

(** [cv::Point], [cv::Rect], [cv::Size]: [int] fields. *)
Record Point : Type := mkPoint { pt_x : Z; pt_y : Z }.
Record Rect : Type := mkRect { rect_x : Z; rect_y : Z; width : Z; height : Z }.
Record Size : Type := mkSize { size_width : Z; size_height : Z }.

(** [cv::Scalar(v0, v1, v2)]; the program only writes integer components. *)
Record Scalar : Type := mkScalar { v0 : Z; v1 : Z; v2 : Z }.

(** One contour: [std::vector<cv::Point>]. *)
Definition Contour : Type := list Point.

(** A pixel of an 8-bit 3-channel image. *)
Record Vec3b : Type := mkVec3b { c0 : Z; c1 : Z; c2 : Z }.

(** Pixel grids, row by row. *)
Definition Gray : Type := list (list Z).
Definition Color : Type := list (list Vec3b).

(** The contents of a [cv::Mat] buffer: [CV_8UC1] or [CV_8UC3]. *)
Inductive Pixels : Type :=
  | C1 (g : Gray)
  | C3 (g : Color).

Definition rows (p : Pixels) : Z :=
  match p with
  | C1 g => Z.of_nat (length g)
  | C3 g => Z.of_nat (length g)
  end.

Definition cols (p : Pixels) : Z :=
  match p with
  | C1 g => Z.of_nat (length (hd [] g))
  | C3 g => Z.of_nat (length (hd [] g))
  end.

Definition total (p : Pixels) : Z := rows p * cols p.

Definition channels (p : Pixels) : Z :=
  match p with
  | C1 _ => 1
  | C3 _ => 3
  end.

(** The shape of a grid: the length of each row. *)
Definition shape {A : Type} (g : list (list A)) : list nat := map length g.

(** The element at row [i], column [j]. *)
Definition pixel {A : Type} (g : list (list A)) (i j : nat) : option A :=
  match g !! i with
  | Some row => row !! j
  | None => None
  end.

(** [cv::inRange(src, lowerb, upperb, dst)] on a 3-channel image: 255 where
    every channel lies within the inclusive bounds, 0 elsewhere. *)
Definition in_bounds (lowerb upperb : Scalar) (p : Vec3b) : bool :=
  (v0 lowerb <=? c0 p) && (c0 p <=? v0 upperb) &&
  (v1 lowerb <=? c1 p) && (c1 p <=? v1 upperb) &&
  (v2 lowerb <=? c2 p) && (c2 p <=? v2 upperb).

Definition inRange (src : Color) (lowerb upperb : Scalar) : Gray :=
  map (map (fun p => if in_bounds lowerb upperb p then 255 else 0)) src.

(** [a | b] on single-channel matrices: element-wise bitwise or; OpenCV
    raises an error when the sizes differ ([None]). *)
Definition bitwise_or (a b : Gray) : option Gray :=
  if decide (shape a = shape b)
  then Some (zip_with (zip_with Z.lor) a b)
  else None.

(** [cv::getStructuringElement(shape, ksize)]; only [MORPH_RECT] is used:
    a [ksize.height] by [ksize.width] matrix of ones. *)
Inductive MorphShapes : Type := MORPH_RECT.

Definition getStructuringElement (s : MorphShapes) (ksize : Size) : Gray :=
  match s with
  | MORPH_RECT =>
      replicate (Z.to_nat (size_height ksize)) (replicate (Z.to_nat (size_width ksize)) 1)
  end.

(** The operations of [cv::morphologyEx] that the program uses. *)
Inductive MorphTypes : Type := MORPH_OPEN | MORPH_CLOSE.

End cv.

Import Double cv.

(** ** The library routines taken as given

    Colour conversion, blurring, erosion and dilation, contour extraction
    and measurement, drawing and number formatting: their results are used
    by the program but not decided by it. *)

Class OpenCV : Type := {
  (** [cv::cvtColor(_, _, COLOR_BGR2GRAY)] and [COLOR_BGR2HSV], pixel by pixel *)
  bgr2gray : Vec3b -> Z;
  bgr2hsv : Vec3b -> Vec3b;
  (** [cv::blur(src, dst, Size(k, k))] *)
  blur : Color -> Z -> Color;
  (** [cv::GaussianBlur(src, dst, Size(k, k), sigmaX)] *)
  GaussianBlur : Color -> Z -> double -> Color;
  (** [cv::erode(src, dst, kernel)], [cv::dilate(src, dst, kernel)] *)
  erode : Gray -> Gray -> Gray;
  dilate : Gray -> Gray -> Gray;
  (** [cv::findContours(image, contours, hierarchy, RETR_EXTERNAL,
      CHAIN_APPROX_SIMPLE)]: the contours, in extraction order *)
  findContours : Gray -> list Contour;
  (** [cv::boundingRect(contour)], [cv::contourArea(contour)] *)
  boundingRect : Contour -> Rect;
  contourArea : Contour -> double;
  (** [cv::rectangle(img, rec, color, thickness)] *)
  rectangle : Pixels -> Rect -> Scalar -> Z -> Pixels;
  (** [cv::putText(img, text, org, FONT_HERSHEY_SIMPLEX, 0.4, color, thickness)] *)
  putText : Pixels -> string -> Point -> Scalar -> Z -> Pixels;
  (** [std::to_string(int)], [std::to_string(double)] *)
  to_string_int : Z -> string;
  to_string_double : double -> string
}.

(** ** The state of a run *)

(** A location of the store of pixel buffers. *)
Definition loc : Type := nat.

(** [cv::Mat]: a handle on a shared buffer; [None] is [cv::Mat()]. *)
Definition Mat : Type := option loc.

(** The texts of [ImageProcessorException]. *)
Inductive Msg : Type :=
  | MsgLoadFailed (path : string)   (* cannot load image: path *)
  | MsgOpenCV                       (* OpenCV error: the text of the cv::Exception *)
  | MsgEmptySize                    (* image is empty, cannot get size *)
  | MsgEmptyChannels                (* image is empty, cannot get channels *)
  | MsgEmptyGray                    (* image is empty, cannot convert to gray *)
  | MsgEmptyMeanBlur                (* image is empty, cannot apply mean blur *)
  | MsgEmptyGaussian                (* image is empty, cannot apply Gaussian blur *)
  | MsgKernelNotOdd                 (* kernel size must be a positive odd number *)
  | MsgEmptyExtract                 (* image is empty, cannot extract light bars *)
  | MsgEmptyBinary.                 (* binary image is empty *)

(** What the program can throw: its own exception, or [cv::Exception]. *)
Inductive Exn : Type :=
  | ImageProcessorException (msg : Msg)
  | cv_Exception.

(** The fixed texts that [main] prints between the stages, one output
    statement each; those of [BannerPreprocess], [BannerDetect] and
    [BannerFilter] begin with a line break. *)
Inductive Banner : Type :=
  | BannerTitle | BannerPreprocess | OkGray | OkMeanBlur | OkGaussian
  | BannerDetect | BannerFilter.

(** One line written to [std::cout]. *)
Inductive Line : Type :=
  | LineLoaded (path : string)
  | LineImageEmpty
  | LineInfoHeader
  | LineInfoPath (path : string)
  | LineInfoSize (w h : Z)
  | LineInfoChannels (n : Z)
  | LineInfoTotal (n : Z)
  | LineExtracted
  (** found [n] contours *)
  | LineFound (n : nat)
  (** valid light bar [rank]: area, aspect ratio, position (x, y) *)
  | LineValid (rank : nat) (area aspectRatio : double) (x y : Z)
  (** kept [n] valid light bars *)
  | LineFiltered (n : nat)
  | LineMain (b : Banner).

(** The world a run acts on: the buffers behind the matrices (a buffer is
    never freed in the model), the decoded image files [cv::imread] can see,
    the two output streams, and the operands of every [double] division
    evaluated so far. *)
Record World : Type := mkWorld {
  heap : gmap loc Pixels;
  files : gmap string Color;
  cout : list Line;
  cerr : list Exn;
  fdivs : list (double * double)
}.

Definition set_heap (h : gmap loc Pixels) (w : World) : World :=
  mkWorld h (files w) (cout w) (cerr w) (fdivs w).

(** ** The monad: state, and exceptions that keep the state reached *)

Definition M (A : Type) : Type := World -> World * (Exn + A).

Definition ret {A : Type} (a : A) : M A := fun w => (w, inr a).

Definition throw {A : Type} (e : Exn) : M A := fun w => (w, inl e).

Definition bind {A B : Type} (c : M A) (k : A -> M B) : M B :=
  fun w =>
    match c w with
    | (w', inr a) => k a w'
    | (w', inl e) => (w', inl e)
    end.

Declare Scope prog_scope.
Delimit Scope prog_scope with prog.
Notation "'let*' x := c 'in' k" := (bind c (fun x => k))
  (at level 10, x name, c at level 100, k at level 200) : prog_scope.
Notation "c >>> k" := (bind c (fun _ => k))
  (at level 100, k at level 200, right associativity) : prog_scope.
Local Open Scope prog_scope.
Local Open Scope Z_scope.

(** [for (i = 0; i < l.size(); i++) s = body(l[i], s)] *)
Fixpoint for_each {A S : Type} (body : A -> S -> M S) (l : list A) (s : S) : M S :=
  match l with
  | [] => ret s
  | a :: l' => let* s' := body a s in for_each body l' s'
  end.

(** [std::cout << ... << std::endl] *)
Definition print (l : Line) : M unit :=
  fun w => (mkWorld (heap w) (files w) (cout w ++ [l]) (cerr w) (fdivs w), inr tt).

(** [std::cerr << ... << e.what() << std::endl] *)
Definition eprint (e : Exn) (w : World) : World :=
  mkWorld (heap w) (files w) (cout w) (cerr w ++ [e]) (fdivs w).

(** A division of doubles: the quotient is returned, and the operands are
    recorded so that one can state which divisions a run evaluates. *)
Definition divide (x y : double) : M double :=
  fun w => (mkWorld (heap w) (files w) (cout w) (cerr w) (fdivs w ++ [(x, y)]),
            inr (fdiv x y)).

(** The buffer behind a handle. *)
Definition load (w : World) (m : Mat) : option Pixels :=
  match m with
  | Some l => heap w !! l
  | None => None
  end.

(** [m.empty()]: no data, or no element. *)
Definition Mat_empty (m : Mat) : M bool :=
  fun w =>
    (w, inr match load w m with
            | Some p => Z.eqb (total p) 0
            | None => true
            end).

(** [m.empty()] holds in [w]. *)
Definition empty_in (w : World) (m : Mat) : Prop :=
  match load w m with
  | Some p => total p = 0%Z
  | None => True
  end.

(** A new buffer holding [p]. *)
Definition alloc (p : Pixels) : M Mat :=
  fun w =>
    let l := fresh (dom (heap w)) in
    (set_heap (<[l := p]> (heap w)) w, inr (Some l)).

(** [m.clone()]: a new buffer with the same contents; an empty matrix
    clones to an empty matrix. *)
Definition Mat_clone (m : Mat) : M Mat :=
  fun w =>
    match load w m with
    | Some p => alloc p w
    | None => (w, inr None)
    end.

(** The contents of a handle that must hold an image of the given kind;
    OpenCV raises an error otherwise. *)
Definition read_color (m : Mat) : M Color :=
  fun w =>
    match load w m with
    | Some (C3 g) => (w, inr g)
    | _ => (w, inl cv_Exception)
    end.

Definition read_gray (m : Mat) : M Gray :=
  fun w =>
    match load w m with
    | Some (C1 g) => (w, inr g)
    | _ => (w, inl cv_Exception)
    end.

(** Drawing in place: the buffer behind [m] is overwritten. *)
Definition draw (m : Mat) (f : Pixels -> Pixels) : M unit :=
  fun w =>
    match m with
    | Some l =>
        match heap w !! l with
        | Some p => (set_heap (<[l := f p]> (heap w)) w, inr tt)
        | None => (w, inl cv_Exception)
        end
    | None => (w, inl cv_Exception)
    end.

(** An OpenCV call that fails with [cv::Exception]. *)
Definition cv_try {A : Type} (o : option A) : M A :=
  match o with
  | Some a => ret a
  | None => throw cv_Exception
  end.

(** [try { body } catch (const cv::Exception &e) { handler }]: the handler
    runs in the world the body had reached. *)
Definition try_catch_cv {A : Type} (body handler : M A) : M A :=
  fun w =>
    match body w with
    | (w', inl cv_Exception) => handler w'
    | r => r
    end.

(** [cv::imread(path)]: the decoded file as a 3-channel image, or an empty
    matrix when the file cannot be read (a missing file, a format that is
    not supported), as the library documents it. *)
Definition imread (path : string) : M Mat :=
  fun w =>
    match files w !! path with
    | Some g => alloc (C3 g) w
    | None => (w, inr None)
    end.

(** A run of [c] from [w] completes without throwing, in a world and with
    a result that satisfy [P]. *)
Definition returns {A : Type} (c : M A) (w : World) (P : World -> A -> Prop) : Prop :=
  exists w' a, c w = (w', inr a) /\ P w' a.

(** [w'] is [w] with more buffers and more output: every buffer of [w] is
    still there with the same contents, the files and the recorded divisions
    are the same. *)
Definition frame (w w' : World) : Prop :=
  (forall l p, heap w !! l = Some p -> heap w' !! l = Some p)
  /\ files w' = files w
  /\ cerr w' = cerr w
  /\ fdivs w' = fdivs w.

(** ** The program *)

Section Program.
Context `{OpenCV}.

(** The data members of [class ImageProcessor]. *)
Record ImageProcessor : Type := mkImageProcessor {
  image : Mat;
  imagePath : string
}.

(** [ImageProcessor(const std::string &path)], over the routine [cv_imread]
    that reads the file: the [try] block, and the [catch] clause that
    rethrows a [cv::Exception] as the program's own exception. *)
Definition ImageProcessor_from (cv_imread : string -> M Mat) (path : string)
  : M ImageProcessor :=
  try_catch_cv
    (let* image := cv_imread path in
     let* e := Mat_empty image in
     if e then throw (ImageProcessorException (MsgLoadFailed path))
     else
       print (LineLoaded path) >>>
       ret (mkImageProcessor image path))
    (throw (ImageProcessorException MsgOpenCV)).

(** The constructor with [cv::imread]. *)
Definition ImageProcessor_new (path : string) : M ImageProcessor :=
  ImageProcessor_from imread path.

(** [image.size()], [image.channels()] of a non-empty matrix. *)
Definition Mat_size (m : Mat) : M Size :=
  fun w =>
    (w, inr match load w m with
            | Some p => mkSize (cols p) (rows p)
            | None => mkSize 0 0
            end).

Definition Mat_channels (m : Mat) : M Z :=
  fun w =>
    (w, inr match load w m with
            | Some p => channels p
            | None => 1
            end).

(** [cv::Size getImageSize() const] *)
Definition getImageSize (this : ImageProcessor) : M Size :=
  let* e := Mat_empty (image this) in
  if e then throw (ImageProcessorException MsgEmptySize)
  else Mat_size (image this).

(** [int getChannels() const] *)
Definition getChannels (this : ImageProcessor) : M Z :=
  let* e := Mat_empty (image this) in
  if e then throw (ImageProcessorException MsgEmptyChannels)
  else Mat_channels (image this).

(** [cv::Mat convertToGray() const] *)
Definition convertToGray (this : ImageProcessor) : M Mat :=
  let* e := Mat_empty (image this) in
  if e then throw (ImageProcessorException MsgEmptyGray)
  else
    let* src := read_color (image this) in
    let grayImage := map (map bgr2gray) src in
    alloc (C1 grayImage).

(** [cv::Mat applyMeanBlur(int kernelSize = 5) const] *)
Definition applyMeanBlur (this : ImageProcessor) (kernelSize : Z) : M Mat :=
  let* e := Mat_empty (image this) in
  if e then throw (ImageProcessorException MsgEmptyMeanBlur)
  else if (kernelSize <=? 0) || (Z.rem kernelSize 2 =? 0)
  then throw (ImageProcessorException MsgKernelNotOdd)
  else
    let* src := read_color (image this) in
    let blurredImage := blur src kernelSize in
    alloc (C3 blurredImage).

(** [cv::Mat applyGaussianBlur(int kernelSize = 5, double sigmaX = 1.0) const] *)
Definition applyGaussianBlur (this : ImageProcessor) (kernelSize : Z) (sigmaX : double)
  : M Mat :=
  let* e := Mat_empty (image this) in
  if e then throw (ImageProcessorException MsgEmptyGaussian)
  else if (kernelSize <=? 0) || (Z.rem kernelSize 2 =? 0)
  then throw (ImageProcessorException MsgKernelNotOdd)
  else
    let* src := read_color (image this) in
    let gaussianBlurred := GaussianBlur src kernelSize sigmaX in
    alloc (C3 gaussianBlurred).

(** The HSV bounds written in [extractLightBars]. *)
Definition red_lower1 : Scalar := mkScalar 0 100 100.
Definition red_upper1 : Scalar := mkScalar 10 255 255.
Definition red_lower2 : Scalar := mkScalar 160 100 100.
Definition red_upper2 : Scalar := mkScalar 180 255 255.
Definition blue_lower : Scalar := mkScalar 100 100 100.
Definition blue_upper : Scalar := mkScalar 130 255 255.

(** [cv::split(image, bgr_channels)] *)
Definition split (src : Color) : list Gray :=
  [map (map c0) src; map (map c1) src; map (map c2) src].

(** [cv::morphologyEx(src, dst, op, kernel)]: opening is an erosion followed
    by a dilation, closing a dilation followed by an erosion. *)
Definition morphologyEx (src : Gray) (op : MorphTypes) (kernel : Gray) : Gray :=
  match op with
  | MORPH_OPEN => dilate (erode src kernel) kernel
  | MORPH_CLOSE => erode (dilate src kernel) kernel
  end.

(** A pixel (in HSV) lies within one of the three ranges. *)
Definition in_any_range (q : Vec3b) : bool :=
  in_bounds red_lower1 red_upper1 q ||
  in_bounds red_lower2 red_upper2 q ||
  in_bounds blue_lower blue_upper q.

(** Lines 138 to 161 of [extractLightBars]: the colour mask of an image.
    The matrices involved are local and never shared, so they are values. *)
Definition color_mask (src : Color) : option Gray :=
  let hsv_image := map (map bgr2hsv) src in
  let red_mask1 := inRange hsv_image red_lower1 red_upper1 in
  let red_mask2 := inRange hsv_image red_lower2 red_upper2 in
  let blue_mask := inRange hsv_image blue_lower blue_upper in
  match bitwise_or red_mask1 red_mask2 with
  | Some red_mask => bitwise_or red_mask blue_mask
  | None => None
  end.

(** Lines 164 to 166 of [extractLightBars]: the refinement of the mask. *)
Definition refine_mask (final_mask : Gray) : Gray :=
  let kernel := getStructuringElement MORPH_RECT (mkSize 3 3) in
  let final_mask := morphologyEx final_mask MORPH_OPEN kernel in
  let final_mask := morphologyEx final_mask MORPH_CLOSE kernel in
  final_mask.

(** [cv::Mat extractLightBars() const] *)
Definition extractLightBars (this : ImageProcessor) : M Mat :=
  let* e := Mat_empty (image this) in
  if e then throw (ImageProcessorException MsgEmptyExtract)
  else
    let* src := read_color (image this) in
    let bgr_channels := split src in
    let* final_mask := cv_try (color_mask src) in
    let final_mask := refine_mask final_mask in
    print LineExtracted >>>
    alloc (C1 final_mask).

(** The literals [1.5] and [8.0]. *)
Definition lit_1_5 : double := literal 3 (-1).
Definition lit_8_0 : double := literal 8 0.

(** The condition [isValidLightBar] of [filterLightBars]. *)
Definition isValidLightBar (area aspectRatio : double) (boundingRect : Rect) : bool :=
  fgt area (of_int 50) &&
  flt area (of_int 5000) &&
  fgt aspectRatio lit_1_5 &&
  flt aspectRatio lit_8_0 &&
  (width boundingRect >? 3) &&
  (height boundingRect >? 10).

(** The label drawn next to a light bar. *)
Definition info_text (area aspectRatio : double) : string :=
  "A:" +:+ to_string_int (to_int area) +:+
  " R:" +:+ String.substring 0%nat 4%nat (to_string_double aspectRatio).

(** The body of the loop over the contours, on the vector
    [validLightBars]. *)
Definition filter_step (visualResult : Mat) (contour : Contour)
    (validLightBars : list Rect) : M (list Rect) :=
  let boundingRect := boundingRect contour in
  let area := contourArea contour in
  let* aspectRatio :=
    divide (of_int (height boundingRect)) (of_int (width boundingRect)) in
  let isValidLightBar := isValidLightBar area aspectRatio boundingRect in
  if isValidLightBar then
    let validLightBars := validLightBars ++ [boundingRect] in
    draw visualResult (fun p => rectangle p boundingRect (mkScalar 0 255 0) 2) >>>
    let info := info_text area aspectRatio in
    draw visualResult
      (fun p => putText p info
                  (mkPoint (rect_x boundingRect) (rect_y boundingRect - 5))
                  (mkScalar 0 255 0) 1) >>>
    print (LineValid (length validLightBars) area aspectRatio
             (rect_x boundingRect) (rect_y boundingRect)) >>>
    ret validLightBars
  else ret validLightBars.

(** The statements of [filterLightBars] after the guard, returning the
    vector [validLightBars] together with [visualResult]. *)
Definition filter_contours (this : ImageProcessor) (binaryImage : Mat)
  : M (list Rect * Mat) :=
  let* visualResult := Mat_clone (image this) in
  let* src := read_gray binaryImage in
  let contours := findContours src in
  let validLightBars : list Rect := [] in
  print (LineFound (length contours)) >>>
  let* validLightBars := for_each (filter_step visualResult) contours validLightBars in
  print (LineFiltered (length validLightBars)) >>>
  ret (validLightBars, visualResult).

(** [cv::Mat filterLightBars(const cv::Mat &binaryImage, cv::Mat &visualResult) const]:
    the returned matrix and the new value of the reference [visualResult]
    (the same handle). When the method throws, the caller's [visualResult]
    keeps its value. *)
Definition filterLightBars (this : ImageProcessor) (binaryImage : Mat)
    (visualResult : Mat) : M (Mat * Mat) :=
  let* e := Mat_empty binaryImage in
  if e then throw (ImageProcessorException MsgEmptyBinary)
  else
    let* r := filter_contours this binaryImage in
    let visualResult := snd r in
    ret (visualResult, visualResult).

(** [void displayImageInfo() const] *)
Definition displayImageInfo (this : ImageProcessor) : M unit :=
  let* e := Mat_empty (image this) in
  if e then print LineImageEmpty
  else
    let* size := getImageSize this in
    print LineInfoHeader >>>
    print (LineInfoPath (imagePath this)) >>>
    print (LineInfoSize (size_width size) (size_height size)) >>>
    let* n := getChannels this in
    print (LineInfoChannels n) >>>
    print (LineInfoTotal (int_mul (size_width size) (size_height size))).

(** The local variables of [main] that are live when it reaches the display
    step. *)
Record Results : Type := mkResults {
  processor : ImageProcessor;
  grayImage : Mat;
  blurredImage : Mat;
  gaussianBlurred : Mat;
  lightBarMask : Mat;
  filteredResult : Mat;
  visualResult : Mat
}.

(** The [try] block of [main], steps 1 to 5: loading, the three
    preprocessing demonstrations, the mask and the classification. *)
Definition main_try : M Results :=
  print (LineMain BannerTitle) >>>
  let imagePath : string := "hero.png" in
  let* processor := ImageProcessor_new imagePath in
  displayImageInfo processor >>>
  print (LineMain BannerPreprocess) >>>
  let* grayImage := convertToGray processor in
  print (LineMain OkGray) >>>
  let* blurredImage := applyMeanBlur processor 5 in
  print (LineMain OkMeanBlur) >>>
  let* gaussianBlurred := applyGaussianBlur processor 5 (of_int 1) in
  print (LineMain OkGaussian) >>>
  print (LineMain BannerDetect) >>>
  let* lightBarMask := extractLightBars processor in
  print (LineMain BannerFilter) >>>
  let visualResult : Mat := None in
  let* r := filterLightBars processor lightBarMask visualResult in
  ret (mkResults processor grayImage blurredImage gaussianBlurred lightBarMask
         (fst r) (snd r)).

(** Steps 6 and 7 of the [try] block show the matrices in windows and save
    them to files; they are windowing and file output on the values
    computed above, and are taken as given. *)
Variable display_and_save : Results -> M unit.

(** [int main()]: 0 when the [try] block completes, -1 from each [catch],
    which reports the exception on [std::cerr]. *)
Definition main (w : World) : World * Z :=
  match (let* r := main_try in display_and_save r) w with
  | (w', inr _) => (w', 0)
  | (w', inl e) => (eprint e w', -1)
  end.

(** *** What the loop computes, stated on lists *)

(** The aspect ratio the loop computes for a contour. *)
Definition aspectRatio_of (c : Contour) : double :=
  fdiv (of_int (height (boundingRect c))) (of_int (width (boundingRect c))).

(** The verdict of the loop on a contour. *)
Definition accepts (c : Contour) : bool :=
  isValidLightBar (contourArea c) (aspectRatio_of c) (boundingRect c).

(** The drawing done for an accepted contour. *)
Definition annotate (p : Pixels) (c : Contour) : Pixels :=
  putText
    (rectangle p (boundingRect c) (mkScalar 0 255 0) 2)
    (info_text (contourArea c) (aspectRatio_of c))
    (mkPoint (rect_x (boundingRect c)) (rect_y (boundingRect c) - 5))
    (mkScalar 0 255 0) 1.

(** The summary line of the accepted contour of rank [k]. *)
Definition summary (k : nat) (c : Contour) : Line :=
  LineValid k (contourArea c) (aspectRatio_of c)
    (rect_x (boundingRect c)) (rect_y (boundingRect c)).

(** The summary lines of a list of accepted contours, the first of which
    has rank [k]. *)
Fixpoint summaries (k : nat) (l : list Contour) : list Line :=
  match l with
  | [] => []
  | c :: l' => summary k c :: summaries (S k) l'
  end.

(** The operands of the division done for a contour. *)
Definition ratio_operands (c : Contour) : double * double :=
  (of_int (height (boundingRect c)), of_int (width (boundingRect c))).

(** The world after the loop body has run on a contour: the division is
    recorded, and an accepted contour is drawn and reported. *)
Definition after_step (l : loc) (p : Pixels) (rank : nat) (c : Contour) (w : World) : World :=
  if accepts c
  then mkWorld (<[l := annotate p c]> (heap w)) (files w)
               (cout w ++ [summary rank c]) (cerr w)
               (fdivs w ++ [ratio_operands c])
  else mkWorld (heap w) (files w) (cout w) (cerr w) (fdivs w ++ [ratio_operands c]).

(** The world after the loop has run over the contours [cs], the first
    accepted one receiving rank [rank]. *)
Definition after_loop (l : loc) (p : Pixels) (rank : nat) (cs : list Contour) (w : World)
  : World :=
  let accepted := List.filter accepts cs in
  mkWorld (<[l := foldl annotate p accepted]> (heap w)) (files w)
          (cout w ++ summaries rank accepted) (cerr w)
          (fdivs w ++ map ratio_operands cs).

(** The world after [filterLightBars] has run on a mask whose contours are
    [cs], for an image with contents [p]. *)
Definition after_filter (p : Pixels) (cs : list Contour) (w : World) : World :=
  let accepted := List.filter accepts cs in
  mkWorld (<[fresh (dom (heap w)) := foldl annotate p accepted]> (heap w)) (files w)
          (cout w ++ [LineFound (length cs)] ++ summaries 1 accepted
                  ++ [LineFiltered (length accepted)])
          (cerr w)
          (fdivs w ++ map ratio_operands cs).

(** A guard against division by zero, as a property of the loop body: the
    contour is rejected and the step evaluates no division. *)
Definition rejected_before_division (c : Contour) : Prop :=
  forall (visualResult : Mat) (validLightBars : list Rect) (w : World),
  exists w',
    filter_step visualResult c validLightBars w = (w', inr validLightBars)
    /\ fdivs w' = fdivs w.

(** The 3 by 3 structuring element. *)
Definition kernel3 : Gray := [[1; 1; 1]; [1; 1; 1]; [1; 1; 1]].

(** The colour mask, pixel by pixel. *)
Definition mask_of (src : Color) : Gray :=
  map (map (fun q => if in_any_range (bgr2hsv q) then 255 else 0)) src.

End Program.

(** ** A small executable instance of the library

    Enough of OpenCV to run the program on small images: the colour
    conversions with truncating division, erosion and dilation by an
    arbitrary kernel anchored at its centre, bounding boxes and polygon
    areas.  Smoothing and text rendering leave the image as it is, and
    contour extraction returns, from left to right, one rectangular
    contour for each band of adjacent columns that hold foreground. *)

Module Demo.
Local Open Scope Z_scope.

Definition max3 (a b c : Z) : Z := Z.max a (Z.max b c).
Definition min3 (a b c : Z) : Z := Z.min a (Z.min b c).

Definition demo_bgr2gray (q : Vec3b) : Z :=
  (114 * c0 q + 587 * c1 q + 299 * c2 q) / 1000.

Definition demo_bgr2hsv (q : Vec3b) : Vec3b :=
  let b := c0 q in
  let g := c1 q in
  let r := c2 q in
  let v := max3 b g r in
  let d := v - min3 b g r in
  let s := if v =? 0 then 0 else 255 * d / v in
  let h :=
    if d =? 0 then 0
    else if v =? r then 30 * (g - b) / d
    else if v =? g then 60 + 30 * (b - r) / d
    else 120 + 30 * (r - g) / d in
  mkVec3b (if h <? 0 then h + 180 else h) s v.

(** The element at row [i], column [j], for integer coordinates. *)
Definition pixel_at (g : Gray) (i j : Z) : option Z :=
  if (0 <=? i) && (0 <=? j) then pixel g (Z.to_nat i) (Z.to_nat j) else None.

(** The values of [g] under the non-zero elements of [kernel] when its
    centre is placed at row [i], column [j]. *)
Definition under_kernel (g kernel : Gray) (i j : nat) : list Z :=
  let ai := Z.of_nat (length kernel) / 2 in
  let aj := Z.of_nat (length (hd [] kernel)) / 2 in
  concat (imap (fun di krow =>
    concat (imap (fun dj kv =>
      if kv =? 0 then []
      else match pixel_at g (Z.of_nat i + Z.of_nat di - ai) (Z.of_nat j + Z.of_nat dj - aj) with
           | Some v => [v]
           | None => []
           end) krow)) kernel).

Definition demo_erode (g kernel : Gray) : Gray :=
  imap (fun i row => imap (fun j _ => foldr Z.min 255 (under_kernel g kernel i j)) row) g.

Definition demo_dilate (g kernel : Gray) : Gray :=
  imap (fun i row => imap (fun j _ => foldr Z.max 0 (under_kernel g kernel i j)) row) g.

(** The foreground pixels, as points (x = column, y = row). *)
Definition foreground_points (g : Gray) : list Point :=
  concat (imap (fun i row =>
    concat (imap (fun j v =>
      if v =? 0 then [] else [mkPoint (Z.of_nat j) (Z.of_nat i)]) row)) g).

Definition demo_boundingRect (c : Contour) : Rect :=
  match c with
  | [] => mkRect 0 0 0 0
  | p :: c' =>
      let xmin := foldr Z.min (pt_x p) (map pt_x c') in
      let xmax := foldr Z.max (pt_x p) (map pt_x c') in
      let ymin := foldr Z.min (pt_y p) (map pt_y c') in
      let ymax := foldr Z.max (pt_y p) (map pt_y c') in
      mkRect xmin ymin (xmax - xmin + 1) (ymax - ymin + 1)
  end.

(** Whether column [j] of [g] holds a foreground pixel. *)
Definition occupied (g : Gray) (j : nat) : bool :=
  existsb (fun row => match row !! j with
                      | Some v => negb (v =? 0)
                      | None => false
                      end) g.

(** The maximal runs of occupied columns, from left to right; [j] is the
    index of the first flag, [start] the first column of the run that is
    open. *)
Fixpoint column_bands (flags : list bool) (j : Z) (start : option Z) : list (Z * Z) :=
  match flags with
  | [] =>
      match start with
      | Some a => [(a, j - 1)]
      | None => []
      end
  | true :: flags' =>
      column_bands flags' (j + 1) (Some (match start with Some a => a | None => j end))
  | false :: flags' =>
      match start with
      | Some a => (a, j - 1) :: column_bands flags' (j + 1) None
      | None => column_bands flags' (j + 1) None
      end
  end.

(** The corners of a rectangle, as a contour. *)
Definition corners (r : Rect) : Contour :=
  let x1 := rect_x r + width r - 1 in
  let y1 := rect_y r + height r - 1 in
  [mkPoint (rect_x r) (rect_y r); mkPoint (rect_x r) y1;
   mkPoint x1 y1; mkPoint x1 (rect_y r)].

Definition demo_findContours (g : Gray) : list Contour :=
  let pts := foreground_points g in
  let flags := map (occupied g) (seq 0 (length (hd [] g))) in
  map (fun band : Z * Z =>
         corners (demo_boundingRect
                    (List.filter (fun p => (fst band <=? pt_x p) && (pt_x p <=? snd band))
                       pts)))
      (column_bands flags 0 None).

(** Twice the signed area of a polygon. *)
Fixpoint shoelace (first prev : Point) (c : Contour) : Z :=
  match c with
  | [] => pt_x prev * pt_y first - pt_x first * pt_y prev
  | p :: c' => pt_x prev * pt_y p - pt_x p * pt_y prev + shoelace first p c'
  end.

Definition demo_contourArea (c : Contour) : double :=
  match c with
  | [] => of_int 0
  | p :: c' => literal (Z.abs (shoelace p p c')) (-1)
  end.

(** The outline of a rectangle, one pixel wide. *)
Definition on_outline (r : Rect) (i j : Z) : bool :=
  let x1 := rect_x r + width r - 1 in
  let y1 := rect_y r + height r - 1 in
  (rect_x r <=? j) && (j <=? x1) && (rect_y r <=? i) && (i <=? y1) &&
  ((j =? rect_x r) || (j =? x1) || (i =? rect_y r) || (i =? y1)).

Definition demo_rectangle (p : Pixels) (r : Rect) (color : Scalar) (thickness : Z) : Pixels :=
  match p with
  | C3 g =>
      C3 (imap (fun i row =>
            imap (fun j q =>
              if on_outline r (Z.of_nat i) (Z.of_nat j)
              then mkVec3b (v0 color) (v1 color) (v2 color) else q) row) g)
  | C1 g =>
      C1 (imap (fun i row =>
            imap (fun j q =>
              if on_outline r (Z.of_nat i) (Z.of_nat j) then v0 color else q) row) g)
  end.

Definition demo_putText (p : Pixels) (text : string) (org : Point) (color : Scalar)
    (thickness : Z) : Pixels := p.

(** The decimal expansion of a double, cut after six places. *)
Definition demo_to_string_double (x : double) : string :=
  match x with
  | S754_finite s m e =>
      let micro := if 0 <=? e then Z.pos m * 2 ^ e * 1000000
                   else Z.pos m * 1000000 / 2 ^ (- e) in
      let frac := pretty (1000000 + micro mod 1000000) in
      (if s then "-" else "") +:+ pretty (micro / 1000000) +:+ "."
        +:+ String.substring 1 6 frac
  | S754_zero s => (if s then "-" else "") +:+ "0.000000"
  | S754_infinity s => (if s then "-" else "") +:+ "inf"
  | S754_nan => "nan"
  end.

#[export] Instance demo_cv : OpenCV := {|
  bgr2gray := demo_bgr2gray;
  bgr2hsv := demo_bgr2hsv;
  blur := fun src _ => src;
  GaussianBlur := fun src _ _ => src;
  erode := demo_erode;
  dilate := demo_dilate;
  findContours := demo_findContours;
  boundingRect := demo_boundingRect;
  contourArea := demo_contourArea;
  rectangle := demo_rectangle;
  putText := demo_putText;
  to_string_int := pretty;
  to_string_double := demo_to_string_double
|}.

(** A 10 by 34 image: a red bar 6 wide and 30 high on a black background. *)
Definition black : Vec3b := mkVec3b 0 0 0.
Definition red : Vec3b := mkVec3b 0 0 255.
Definition blue : Vec3b := mkVec3b 255 0 0.

Definition bar_image : Color :=
  replicate 2 (replicate 10 black)
  ++ replicate 30 (replicate 2 black ++ replicate 6 red ++ replicate 2 black)
  ++ replicate 2 (replicate 10 black).

(** The contour of the bar, and a contour that is too small. *)
Definition bar_contour : Contour :=
  [mkPoint 2 2; mkPoint 2 31; mkPoint 7 31; mkPoint 7 2].

Definition dot_contour : Contour :=
  [mkPoint 0 0; mkPoint 0 1; mkPoint 1 1; mkPoint 1 0].

(** A world in which [hero.png] decodes to the bar image. *)
Definition world0 : World :=
  mkWorld ∅ {[ "hero.png" := bar_image ]} [] [] [].

(** A world holding the bar image and its refined mask, and a processor
    on that image. *)
Definition bar_mask : Gray := refine_mask (mask_of bar_image).

Definition world1 : World :=
  mkWorld {[ 0%nat := C3 bar_image; 1%nat := C1 bar_mask ]} ∅ [] [] [].

Definition processor1 : ImageProcessor := mkImageProcessor (Some 0%nat) "hero.png".

(** A uniformly grey 40 by 40 image, and a 20 by 22 red blob on black. *)
Definition grey_image : Color := replicate 40 (replicate 40 (mkVec3b 40 40 40)).

Definition blob_image : Color :=
  replicate 2 (replicate 24 black)
  ++ replicate 22 (replicate 2 black ++ replicate 20 red ++ replicate 2 black)
  ++ replicate 2 (replicate 24 black).

Definition world_of (src : Color) : World :=
  mkWorld ∅ {[ "hero.png" := src ]} [] [] [].

(** A world holding a black image and its (black) mask. *)
Definition world_dark : World :=
  mkWorld {[ 0%nat := C3 (replicate 4 (replicate 4 black));
             1%nat := C1 (replicate 4 (replicate 4 0)) ]} ∅ [] [] [].

(** A world whose only image has no rows, and a processor on it. *)
Definition world_empty : World :=
  mkWorld {[ 0%nat := C3 [] ]} ∅ [] [] [].

(** A 35 by 34 image with three red shapes on black: a bar 6 wide and 30
    high, a slab 12 wide and 5 high, and a bar 5 wide and 20 high; and a
    world holding it with its refined mask. *)
Definition trio_row (a b c : bool) : list Vec3b :=
  replicate 2 black ++ replicate 6 (if a then red else black)
  ++ replicate 4 black ++ replicate 12 (if b then red else black)
  ++ replicate 4 black ++ replicate 5 (if c then red else black)
  ++ replicate 2 black.

Definition trio_image : Color :=
  replicate 2 (trio_row false false false)
  ++ replicate 3 (trio_row true false false)
  ++ replicate 5 (trio_row true false true)
  ++ replicate 5 (trio_row true true true)
  ++ replicate 10 (trio_row true false true)
  ++ replicate 7 (trio_row true false false)
  ++ replicate 2 (trio_row false false false).

Definition trio_mask : Gray := refine_mask (mask_of trio_image).

Definition world_trio : World :=
  mkWorld {[ 0%nat := C3 trio_image; 1%nat := C1 trio_mask ]} ∅ [] [] [].

End Demo.

From Stdlib Require Import Qround.

(** ** Vocabulary for the properties of the methods *)

(** Every buffer of [w] is in [w'] with the same contents, and the files
    are the same. *)
Definition keeps_buffers (w w' : World) : Prop :=
  (forall l p, heap w !! l = Some p -> heap w' !! l = Some p)
  /\ files w' = files w.

(** [c] never overwrites a buffer, whether it returns or throws. *)
Definition preserving {A : Type} (c : M A) : Prop :=
  forall w w' r, c w = (w', r) -> keeps_buffers w w'.

(** A run of [c] from [w] ends, by a return or a throw, after printing the
    lines [L], in a world and with a result that satisfy [R]. *)
Definition outcome {A : Type} (c : M A) (w : World) (L : list Line)
    (R : World -> Exn + A -> Prop) : Prop :=
  exists w' r, c w = (w', r) /\ cout w' = cout w ++ L /\ R w' r.

(** [c] writes to no buffer other than the one behind [m], and to no file,
    whether it returns or throws. *)
Definition touches_only {A : Type} (m : Mat) (c : M A) : Prop :=
  forall w w' r, c w = (w', r) ->
    files w' = files w
    /\ forall l, m <> Some l -> heap w' !! l = heap w !! l.

Section Vocabulary.
Context `{OpenCV}.
Local Open Scope Z_scope.

(** What [displayImageInfo] prints for a processor in a world. *)
Definition info_lines (this : ImageProcessor) (w : World) : list Line :=
  match load w (image this) with
  | Some p =>
      if total p =? 0 then [LineImageEmpty]
      else [LineInfoHeader; LineInfoPath (imagePath this);
            LineInfoSize (cols p) (rows p); LineInfoChannels (channels p);
            LineInfoTotal (int_mul (cols p) (rows p))]
  | None => [LineImageEmpty]
  end.

(** The three preprocessing demonstrations followed by the detection, as
    [main] calls them. *)
Definition preprocess_then_extract (this : ImageProcessor) (kernelSize : Z)
    (sigmaX : double) : M Mat :=
  (let* grayImage := convertToGray this in
   let* blurredImage := applyMeanBlur this kernelSize in
   let* gaussianBlurred := applyGaussianBlur this kernelSize sigmaX in
   extractLightBars this)%prog.

(** The rank printed on a summary line. *)
Definition rank_of (l : Line) : option nat :=
  match l with
  | LineValid k _ _ _ _ => Some k
  | _ => None
  end.

(** What steps 1 to 5 of [main] write to [std::cout] for an image [src]
    before the classification starts, and in a complete run, one entry for
    each output statement executed. *)
Definition prefix_lines (src : Color) : list Line :=
  [LineMain BannerTitle; LineLoaded "hero.png"; LineInfoHeader;
   LineInfoPath "hero.png"; LineInfoSize (cols (C3 src)) (rows (C3 src));
   LineInfoChannels 3; LineInfoTotal (int_mul (cols (C3 src)) (rows (C3 src)));
   LineMain BannerPreprocess; LineMain OkGray; LineMain OkMeanBlur;
   LineMain OkGaussian; LineMain BannerDetect; LineExtracted;
   LineMain BannerFilter].

Definition main_lines (src : Color) : list Line :=
  let contours := findContours (refine_mask (mask_of src)) in
  let accepted := List.filter accepts contours in
  prefix_lines src
  ++ [LineFound (length contours)] ++ summaries 1 accepted
  ++ [LineFiltered (length accepted)].

End Vocabulary.

(* ===================================================================== *)
(** * Part II: properties                                                 *)
(* ===================================================================== *)

(** ** binary64: conversion, division and comparison *)

Section DoubleFacts.
Local Open Scope Z_scope.

Lemma digits2_pos_bounds (p : positive) :
  2 ^ (Z.pos (digits2_pos p) - 1) <= Z.pos p < 2 ^ Z.pos (digits2_pos p).
Proof.
  induction p as [p IH | p IH | ]; cbn [digits2_pos].
  - rewrite Pos2Z.inj_succ.
    replace (Z.succ (Z.pos (digits2_pos p)) - 1) with (Z.succ (Z.pos (digits2_pos p) - 1)) by lia.
    rewrite !Z.pow_succ_r by lia. lia.
  - rewrite Pos2Z.inj_succ.
    replace (Z.succ (Z.pos (digits2_pos p)) - 1) with (Z.succ (Z.pos (digits2_pos p) - 1)) by lia.
    rewrite !Z.pow_succ_r by lia. lia.
  - cbn. lia.
Qed.

Lemma digits2_pos_unique (p : positive) (d : Z) :
  2 ^ (d - 1) <= Z.pos p < 2 ^ d -> Z.pos (digits2_pos p) = d.
Proof.
  intros [Hlo Hhi]. pose proof (digits2_pos_bounds p) as [Blo Bhi].
  set (k := Z.pos (digits2_pos p)) in *.
  assert (0 < k) by (subst k; lia).
  destruct (Z.lt_trichotomy k d) as [Hlt | [Heq | Hgt]]; [ | exact Heq | ].
  - assert (2 ^ k <= 2 ^ (d - 1)) by (apply Z.pow_le_mono_r; lia). lia.
  - assert (0 <= d).
    { destruct (Z.le_gt_cases 0 d); [assumption|].
      rewrite (Z.pow_neg_r 2 d) in Hhi by lia. lia. }
    assert (2 ^ d <= 2 ^ (k - 1)) by (apply Z.pow_le_mono_r; lia). lia.
Qed.

Lemma Zdigits2_unique (z d : Z) :
  0 < z -> 2 ^ (d - 1) <= z < 2 ^ d -> Zdigits2 z = d.
Proof.
  intros Hz H. destruct z as [ | p | p]; try lia.
  cbn [Zdigits2]. now apply digits2_pos_unique.
Qed.

Lemma iter_xO_pow (p n : positive) :
  Z.pos (Pos.iter xO p n) = Z.pos p * 2 ^ Z.pos n.
Proof.
  change (Pos.iter xO p n) with (shift_pos n p).
  rewrite shift_pos_correct. change (Z.pow_pos 2 n) with (2 ^ Z.pos n). lia.
Qed.

Lemma shr_fexp_keep (m e : Z) (l : location) :
  Zdigits2 m = 53 -> -1074 <= e ->
  shr_fexp prec emax m e l = (shr_record_of_loc m l, e).
Proof.
  intros Hd He. unfold shr_fexp, fexp, emin, prec, emax. rewrite Hd.
  replace (Z.max (53 + e - 53) (3 - 1024 - 53) - e) with 0 by lia.
  reflexivity.
Qed.

Lemma shr_fexp_shift (m e : Z) (l : location) :
  Zdigits2 m = 54 -> -1075 <= e ->
  shr_fexp prec emax m e l = (shr_1 (shr_record_of_loc m l), e + 1).
Proof.
  intros Hd He. unfold shr_fexp, fexp, emin, prec, emax. rewrite Hd.
  replace (Z.max (54 + e - 53) (3 - 1024 - 53) - e) with 1 by lia.
  reflexivity.
Qed.

Lemma loc_of_shr_record_of_loc (m : Z) (l : location) :
  loc_of_shr_record (shr_record_of_loc m l) = l.
Proof. destruct l as [ | [ | | ]]; reflexivity. Qed.

Lemma shr_m_of_loc (m : Z) (l : location) : shr_m (shr_record_of_loc m l) = m.
Proof. destruct l as [ | [ | | ]]; reflexivity. Qed.



Lemma binary_round_aux_unfold sx mx ex lx :
  binary_round_aux prec emax sx mx ex lx =
  finish sx (shr_fexp prec emax
     (round_nearest_even (shr_m (fst (shr_fexp prec emax mx ex lx)))
                         (loc_of_shr_record (fst (shr_fexp prec emax mx ex lx))))
     (snd (shr_fexp prec emax mx ex lx)) loc_Exact).
Proof.
  unfold binary_round_aux, finish.
  destruct (shr_fexp prec emax mx ex lx) as [mrs' e']. reflexivity.
Qed.

Lemma finish_spec (mr e : Z) :
  2 ^ 52 <= mr <= 2 ^ 53 -> -1074 <= e <= 970 ->
  exists m sh,
    finish false (shr_fexp prec emax mr e loc_Exact) = S754_finite false m (e + sh)
    /\ (sh = 0 \/ sh = 1) /\ Z.pos m * 2 ^ sh = mr /\ 2 ^ 52 <= Z.pos m < 2 ^ 53.
Proof.
  intros Hm He. destruct (Z.eq_dec mr (2 ^ 53)) as [-> | Hne].
  - rewrite shr_fexp_shift by (reflexivity || lia).
    exists (2 ^ 52)%positive, 1. unfold finish. cbn [shr_record_of_loc shr_1 shr_m].
    change (2 ^ 53) with (Z.pos (2 ^ 52)~0). cbn [shr_1 shr_m].
    replace (e + 1 <=? emax - prec) with true
      by (symmetry; apply Z.leb_le; unfold emax, prec; lia).
    repeat split; try (right; reflexivity); try reflexivity; cbn; lia.
  - assert (Hd : Zdigits2 mr = 53) by (apply Zdigits2_unique; [lia | change (53 - 1) with 52; lia]).
    rewrite shr_fexp_keep by (assumption || lia).
    destruct mr as [ | p | p]; try (cbn in Hm; lia).
    exists p, 0. unfold finish. cbn [shr_record_of_loc shr_m].
    replace (e <=? emax - prec) with true
      by (symmetry; apply Z.leb_le; unfold emax, prec; lia).
    rewrite Z.add_0_r. repeat split; try (left; reflexivity); cbn in *; lia.
Qed.

Lemma Zdigits2_53 (z : Z) : 2 ^ 52 <= z < 2 ^ 53 -> Zdigits2 z = 53.
Proof. intros H. apply Zdigits2_unique; [lia | exact H]. Qed.

Lemma Zdigits2_54 (z : Z) : 2 ^ 53 <= z < 2 ^ 54 -> Zdigits2 z = 54.
Proof. intros H. apply Zdigits2_unique; [lia | exact H]. Qed.

Lemma round_nearest_even_range (m : Z) (l : location) :
  let r := round_nearest_even m l in
  (r = m \/ r = m + 1) /\ (l = loc_Exact -> r = m).
Proof.
  destruct l as [ | [ | | ]]; cbn; try destruct (Z.even m); auto; split; auto; discriminate.
Qed.

Lemma binary_round_aux_faithful (q e : Z) (l : location) (D N : Z) :
  2 ^ 52 <= q < 2 ^ 54 -> -1074 <= e <= 968 -> 0 < D ->
  q * D <= N < (q + 1) * D -> (l = loc_Exact \/ q * D < N) ->
  exists m sh,
    binary_round_aux prec emax false q e l = S754_finite false m (e + sh)
    /\ 0 <= sh <= 2 /\ 2 ^ 52 <= Z.pos m < 2 ^ 53
    /\ (Z.pos m - 1) * 2 ^ sh * D < N < (Z.pos m + 1) * 2 ^ sh * D.
Proof.
  intros Hq He HD HN Hl. rewrite binary_round_aux_unfold.
  destruct (Z_lt_le_dec q (2 ^ 53)) as [Hlt | Hge].
  - assert (Hd : Zdigits2 q = 53) by (apply Zdigits2_53; lia).
    rewrite (shr_fexp_keep q e l) by (assumption || lia). cbn [fst snd].
    rewrite shr_m_of_loc, loc_of_shr_record_of_loc.
    pose proof (round_nearest_even_range q l) as [Hr Hex].
    set (mr := round_nearest_even q l) in *.
    destruct (finish_spec mr e) as (m & sh & Hfin & Hsh & Hval & Hrange);
      [lia | lia | ].
    exists m, sh. rewrite Hfin. split; [reflexivity | ].
    split; [lia | ]. split; [assumption | ].
    assert (Hstrict : mr = q + 1 -> q * D < N).
    { intros Hmr. destruct Hl as [Hl | Hl]; [ | assumption].
      specialize (Hex Hl). lia. }
    destruct Hsh as [-> | ->]; cbn [Z.pow Z.pow_pos Pos.iter Z.mul Pos.mul] in *;
      destruct Hr as [Hr | Hr]; try specialize (Hstrict Hr); nia.
  - assert (Hd : Zdigits2 q = 54) by (apply Zdigits2_54; lia).
    rewrite (shr_fexp_shift q e l) by (assumption || lia). cbn [fst snd].
    destruct q as [ | p | p]; try (cbn in Hge; lia).
    assert (Hshr : exists m0 b, shr_m (shr_1 (shr_record_of_loc (Z.pos p) l)) = m0
              /\ Z.pos p = 2 * m0 + Z.b2z b
              /\ (b = false ->
                  round_nearest_even m0 (loc_of_shr_record (shr_1 (shr_record_of_loc (Z.pos p) l))) = m0)).
    { destruct p as [p' | p' | ].
      - exists (Z.pos p'), true. destruct l as [ | [ | | ]]; cbn; repeat split; discriminate.
      - exists (Z.pos p'), false. destruct l as [ | [ | | ]]; cbn; repeat split; reflexivity.
      - cbn in Hge. lia. }
    destruct Hshr as (m0 & b & Hm0 & Hp & Hb).
    pose proof (round_nearest_even_range m0
      (loc_of_shr_record (shr_1 (shr_record_of_loc (Z.pos p) l)))) as [Hr _].
    rewrite Hm0.
    set (mr := round_nearest_even m0 _) in *.
    destruct (finish_spec mr (e + 1)) as (m & sh & Hfin & Hsh & Hval & Hrange);
      [destruct b; cbn [Z.b2z] in Hp; lia | lia | ].
    exists m, (1 + sh). rewrite Hfin. split; [f_equal; lia | ].
    split; [lia | ]. split; [assumption | ].
    assert (Hodd : mr = m0 + 1 -> b = true).
    { intros Hmr. destruct b; [reflexivity | ]. specialize (Hb eq_refl). lia. }
    rewrite Hp in HN. clear Hfin Hb Hm0 Hd Hge Hq Hp Hl He.
    assert (Hb : Z.b2z b = 0 \/ Z.b2z b = 1) by (destruct b; cbn; lia).
    assert (Hb' : mr = m0 + 1 -> Z.b2z b = 1) by (intros E; rewrite (Hodd E); reflexivity).
    clear Hodd. subst mr. revert Hb Hb' HN. generalize (Z.b2z b). intros c Hc Hc' HN.
    destruct Hsh as [-> | ->].
    + change (2 ^ (1 + 0)) with 2. change (2 ^ 0) with 1 in Hval.
      destruct Hr as [Hr | Hr].
      * assert (E : m0 = Z.pos m) by lia. subst m0. lia.
      * assert (E : m0 = Z.pos m - 1) by lia. subst m0. lia.
    + change (2 ^ (1 + 1)) with 4. change (2 ^ 1) with 2 in Hval.
      destruct Hr as [Hr | Hr].
      * assert (E : m0 = Z.pos m * 2) by lia. subst m0. lia.
      * assert (E : m0 = Z.pos m * 2 - 1) by lia. subst m0. lia.
Qed.

Lemma new_location_exact (D r : Z) :
  new_location D r = loc_Exact \/ r <> 0.
Proof.
  unfold new_location, new_location_even, new_location_odd.
  destruct (Z.even D); destruct (Z.eqb_spec r 0); auto.
Qed.

Lemma SFdiv_core_normal (m1 m2 : positive) (e1 e2 : Z) :
  2 ^ 52 <= Z.pos m1 < 2 ^ 53 -> 2 ^ 52 <= Z.pos m2 < 2 ^ 53 ->
  -1021 <= e1 - e2 ->
  SFdiv_core_binary prec emax (Z.pos m1) e1 (Z.pos m2) e2 =
  ((Z.pos m1 * 2 ^ 53) / Z.pos m2, e1 - e2 - 53,
   new_location (Z.pos m2) ((Z.pos m1 * 2 ^ 53) mod Z.pos m2)).
Proof.
  intros H1 H2 He. unfold SFdiv_core_binary.
  rewrite (Zdigits2_53 (Z.pos m1)), (Zdigits2_53 (Z.pos m2)) by assumption.
  unfold fexp, emin, prec, emax.
  replace (Z.min (Z.max (53 + e1 - (53 + e2) - 53) (3 - 1024 - 53)) (e1 - e2))
    with (e1 - e2 - 53) by lia.
  replace (e1 - e2 - (e1 - e2 - 53)) with 53 by lia.
  cbv beta iota zeta.
  rewrite Z.shiftl_mul_pow2 by lia.
  unfold Z.div, Z.modulo.
  destruct (Z.div_eucl (Z.pos m1 * 2 ^ 53) (Z.pos m2)) as [q r]. reflexivity.
Qed.

Lemma SFdiv_normal (m1 m2 : positive) (e1 e2 : Z) :
  2 ^ 52 <= Z.pos m1 < 2 ^ 53 -> 2 ^ 52 <= Z.pos m2 < 2 ^ 53 ->
  -1021 <= e1 - e2 <= 1021 ->
  exists m sh,
    fdiv (S754_finite false m1 e1) (S754_finite false m2 e2)
      = S754_finite false m (e1 - e2 - 53 + sh)
    /\ 0 <= sh <= 2 /\ 2 ^ 52 <= Z.pos m < 2 ^ 53
    /\ (Z.pos m - 1) * 2 ^ sh * Z.pos m2 < Z.pos m1 * 2 ^ 53
         < (Z.pos m + 1) * 2 ^ sh * Z.pos m2.
Proof.
  intros H1 H2 He. unfold fdiv, SFdiv.
  rewrite SFdiv_core_normal by (assumption || lia). cbn [xorb].
  set (N := Z.pos m1 * 2 ^ 53). set (D := Z.pos m2).
  assert (HD : 0 < D) by (subst D; lia).
  pose proof (Z.div_mod N D ltac:(lia)) as Hdm.
  pose proof (Z.mod_pos_bound N D HD) as Hr.
  set (q := N / D) in *. set (r := N mod D) in *.
  assert (Hq : 2 ^ 52 <= q < 2 ^ 54).
  { subst N D. split.
    - destruct (Z_lt_le_dec q (2 ^ 52)) as [Hc | Hc]; [ | assumption]. exfalso. nia.
    - destruct (Z_lt_le_dec q (2 ^ 54)) as [Hc | Hc]; [assumption | ]. exfalso. nia. }
  apply binary_round_aux_faithful; try lia.
  destruct (new_location_exact D r) as [Hl | Hl]; [left; exact Hl | right; lia].
Qed.

Lemma binary_round_aux_exact (m : positive) (e : Z) :
  2 ^ 52 <= Z.pos m < 2 ^ 53 -> -1074 <= e <= 971 ->
  binary_round_aux prec emax false (Z.pos m) e loc_Exact = S754_finite false m e.
Proof.
  intros Hm He. rewrite binary_round_aux_unfold.
  rewrite (shr_fexp_keep (Z.pos m) e loc_Exact) by (apply Zdigits2_53 || lia; assumption).
  cbn [fst snd shr_record_of_loc shr_m loc_of_shr_record round_nearest_even].
  rewrite (shr_fexp_keep (Z.pos m) e loc_Exact) by (apply Zdigits2_53 || lia; assumption).
  unfold finish. cbn [shr_record_of_loc shr_m].
  replace (e <=? emax - prec) with true
    by (symmetry; apply Z.leb_le; unfold emax, prec; lia).
  reflexivity.
Qed.

Lemma of_int_pos (z : Z) :
  0 < z < 2 ^ 53 ->
  exists m d,
    of_int z = S754_finite false m (d - 53)
    /\ 1 <= d <= 53 /\ 2 ^ (d - 1) <= z < 2 ^ d
    /\ Z.pos m = z * 2 ^ (53 - d) /\ 2 ^ 52 <= Z.pos m < 2 ^ 53.
Proof.
  intros Hz. destruct z as [ | p | p]; try lia.
  pose proof (digits2_pos_bounds p) as Hb.
  set (d := Z.pos (digits2_pos p)) in *.
  assert (Hd : 1 <= d <= 53).
  { split; [subst d; lia | ].
    destruct (Z_lt_le_dec 53 d) as [Hc | Hc]; [ | assumption].
    assert (2 ^ 53 <= 2 ^ (d - 1)) by (apply Z.pow_le_mono_r; lia). lia. }
  assert (Hscale : forall m, Z.pos m = Z.pos p * 2 ^ (53 - d) -> 2 ^ 52 <= Z.pos m < 2 ^ 53).
  { intros m ->.
    assert (E1 : 2 ^ 52 = 2 ^ (d - 1) * 2 ^ (53 - d))
      by (rewrite <- Z.pow_add_r by lia; f_equal; lia).
    assert (E2 : 2 ^ 53 = 2 ^ d * 2 ^ (53 - d))
      by (rewrite <- Z.pow_add_r by lia; f_equal; lia).
    assert (0 < 2 ^ (53 - d)) by (apply Z.pow_pos_nonneg; lia).
    rewrite E1, E2. split; [apply Z.mul_le_mono_nonneg_r | apply Z.mul_lt_mono_pos_r]; lia. }
  unfold of_int, binary_normalize, binary_round, shl_align. fold d.
  replace (fexp prec emax (d + 0)) with (d - 53)
    by (unfold fexp, emin, prec, emax; lia).
  destruct (d - 53 - 0) as [ | k | k] eqn:Ek; try lia.
  - assert (d = 53) by lia.
    assert (Hm : Z.pos p = Z.pos p * 2 ^ (53 - d))
      by (replace (53 - d) with 0 by lia; lia).
    exists p, d. rewrite (binary_round_aux_exact p 0) by (auto; lia).
    repeat split; try lia; try apply (Hscale p Hm). f_equal. lia.
  - assert (Hm : Z.pos (Pos.iter xO p k) = Z.pos p * 2 ^ (53 - d))
      by (rewrite iter_xO_pow; f_equal; f_equal; lia).
    exists (Pos.iter xO p k), d.
    rewrite (binary_round_aux_exact (Pos.iter xO p k) (d - 53)) by (auto; lia).
    repeat split; try lia; apply (Hscale _ Hm).
Qed.

Lemma fdiv_of_int (h w : Z) :
  0 < h < 2 ^ 31 -> 0 < w < 2 ^ 31 ->
  exists m k,
    fdiv (of_int h) (of_int w) = S754_finite false m (- k)
    /\ 2 ^ 52 <= Z.pos m < 2 ^ 53 /\ 21 <= k <= 83
    /\ (Z.pos m - 1) * w < h * 2 ^ k < (Z.pos m + 1) * w.
Proof.
  intros Hh Hw.
  destruct (of_int_pos h) as (m1 & dh & E1 & Hdh & Bh & V1 & R1); [lia | ].
  destruct (of_int_pos w) as (m2 & dw & E2 & Hdw & Bw & V2 & R2); [lia | ].
  assert (dh <= 31).
  { destruct (Z_lt_le_dec 31 dh) as [Hc | Hc]; [ | assumption].
    assert (2 ^ 31 <= 2 ^ (dh - 1)) by (apply Z.pow_le_mono_r; lia). lia. }
  assert (dw <= 31).
  { destruct (Z_lt_le_dec 31 dw) as [Hc | Hc]; [ | assumption].
    assert (2 ^ 31 <= 2 ^ (dw - 1)) by (apply Z.pow_le_mono_r; lia). lia. }
  rewrite E1, E2.
  destruct (SFdiv_normal m1 m2 (dh - 53) (dw - 53)) as (m & sh & E & Hsh & R & B);
    [assumption | assumption | lia | ].
  exists m, (53 - sh + dw - dh). rewrite E.
  split; [f_equal; lia | ]. split; [assumption | ]. split; [lia | ].
  rewrite V1, V2 in B.
  set (k := 53 - sh + dw - dh).
  set (P := 2 ^ sh * 2 ^ (53 - dw)).
  assert (HP : 0 < P) by (subst P; apply Z.mul_pos_pos; apply Z.pow_pos_nonneg; lia).
  assert (EP : 2 ^ k * P = 2 ^ (53 - dh) * 2 ^ 53).
  { subst P k. rewrite <- !Z.pow_add_r by lia. f_equal. lia. }
  split; apply (Z.mul_lt_mono_pos_r P); try assumption.
  - replace (h * 2 ^ k * P) with (h * (2 ^ k * P)) by ring. rewrite EP.
    subst P. destruct B as [B _].
    replace ((Z.pos m - 1) * w * (2 ^ sh * 2 ^ (53 - dw)))
      with ((Z.pos m - 1) * 2 ^ sh * (w * 2 ^ (53 - dw))) by ring.
    replace (h * (2 ^ (53 - dh) * 2 ^ 53)) with (h * 2 ^ (53 - dh) * 2 ^ 53) by ring.
    exact B.
  - replace (h * 2 ^ k * P) with (h * (2 ^ k * P)) by ring. rewrite EP.
    subst P. destruct B as [_ B].
    replace ((Z.pos m + 1) * w * (2 ^ sh * 2 ^ (53 - dw)))
      with ((Z.pos m + 1) * 2 ^ sh * (w * 2 ^ (53 - dw))) by ring.
    replace (h * (2 ^ (53 - dh) * 2 ^ 53)) with (h * 2 ^ (53 - dh) * 2 ^ 53) by ring.
    exact B.
Qed.


Lemma SFltb_pos (m1 m2 : positive) (e1 e2 : Z) :
  SFltb (S754_finite false m1 e1) (S754_finite false m2 e2) = true
  <-> e1 < e2 \/ (e1 = e2 /\ Z.pos m1 < Z.pos m2).
Proof.
  unfold SFltb, SFcompare. rewrite Pos.compare_cont_spec. cbn [Pos.switch_Eq].
  destruct (Z.compare_spec e1 e2) as [He | He | He].
  - fold (Pos.compare m1 m2). 
    destruct (Pos.compare_spec m1 m2) as [Hm | Hm | Hm]; split; intros H;
      try discriminate; try reflexivity; try lia.
  - split; intros; [lia | reflexivity].
  - split; intros H; [discriminate | lia].
Qed.

Lemma ratio_gt_1_5 (h w : Z) :
  0 < h < 2 ^ 31 -> 0 < w < 2 ^ 31 ->
  fgt (fdiv (of_int h) (of_int w)) lit_1_5 = true <-> 3 * w < 2 * h.
Proof.
  intros Hh Hw. destruct (fdiv_of_int h w Hh Hw) as (m & k & E & R & Hk & B).
  rewrite E. unfold fgt.
  change lit_1_5 with (S754_finite false 6755399441055744 (-52)).
  rewrite SFltb_pos.
  change (Z.pos 6755399441055744) with (3 * 2 ^ 51).
  assert (HP : 0 < 2 ^ k) by (apply Z.pow_pos_nonneg; lia).
  split.
  - intros [Hlt | [Heq Hm]].
    + assert (2 ^ k <= 2 ^ 51) by (apply Z.pow_le_mono_r; lia). nia.
    + assert (k = 52) by lia. subst k. nia.
  - intros Hr. destruct (Z_lt_le_dec k 52) as [Hc | Hc]; [left; lia | right].
    destruct (Z.eq_dec k 52) as [-> | Hne].
    + split; [reflexivity | ]. nia.
    + exfalso. assert (2 ^ 53 <= 2 ^ k) by (apply Z.pow_le_mono_r; lia). nia.
Qed.

Lemma ratio_lt_8 (h w : Z) :
  0 < h < 2 ^ 31 -> 0 < w < 2 ^ 31 ->
  flt (fdiv (of_int h) (of_int w)) lit_8_0 = true <-> h < 8 * w.
Proof.
  intros Hh Hw. destruct (fdiv_of_int h w Hh Hw) as (m & k & E & R & Hk & B).
  rewrite E. unfold flt. change lit_8_0 with (S754_finite false (2 ^ 52) (-49)).
  rewrite SFltb_pos.
  change (Z.pos (2 ^ 52)) with (2 ^ 52).
  assert (HP : 0 < 2 ^ k) by (apply Z.pow_pos_nonneg; lia).
  split.
  - intros [Hlt | [Heq Hm]]; [ | lia].
    assert (2 ^ 50 <= 2 ^ k) by (apply Z.pow_le_mono_r; lia). nia.
  - intros Hr. left. destruct (Z_lt_le_dec 49 k) as [Hc | Hc]; [lia | exfalso].
    assert (2 ^ k <= 2 ^ 49) by (apply Z.pow_le_mono_r; lia). nia.
Qed.

Lemma bounded_inv (m : positive) (e : Z) :
  bounded prec emax m e = true ->
  -1074 <= e <= 971 /\ Z.pos m < 2 ^ 53 /\ (-1074 < e -> 2 ^ 52 <= Z.pos m).
Proof.
  unfold bounded, canonical_mantissa, fexp, emin, prec, emax.
  intros H. apply andb_true_iff in H as [Hc He].
  apply Z.eqb_eq in Hc. apply Z.leb_le in He.
  pose proof (digits2_pos_bounds m) as [Blo Bhi].
  set (d := Z.pos (digits2_pos m)) in *.
  assert (0 < d) by (subst d; lia).
  split; [lia | ]. split.
  - assert (2 ^ d <= 2 ^ 53) by (apply Z.pow_le_mono_r; lia). lia.
  - intros Hgt. assert (d = 53) by lia.
    replace (d - 1) with 52 in Blo by lia. exact Blo.
Qed.

Lemma scaled_pos_lt (m1 m2 : positive) (e1 e2 : Z) :
  bounded prec emax m1 e1 = true -> bounded prec emax m2 e2 = true ->
  (e1 < e2 \/ (e1 = e2 /\ Z.pos m1 < Z.pos m2))
  <-> Z.pos m1 * 2 ^ (e1 + 1074) < Z.pos m2 * 2 ^ (e2 + 1074).
Proof.
  intros B1 B2.
  apply bounded_inv in B1 as (He1 & Hm1 & Hn1).
  apply bounded_inv in B2 as (He2 & Hm2 & Hn2).
  assert (Hstep : forall (a b : positive) (ea eb : Z),
             -1074 <= ea -> ea < eb -> Z.pos a < 2 ^ 53 -> 2 ^ 52 <= Z.pos b ->
             Z.pos a * 2 ^ (ea + 1074) < Z.pos b * 2 ^ (eb + 1074)).
  { intros a b ea eb Hea Hlt Ha Hb.
    assert (0 < 2 ^ (ea + 1074)) by (apply Z.pow_pos_nonneg; lia).
    assert (2 ^ (ea + 1074 + 1) <= 2 ^ (eb + 1074)) by (apply Z.pow_le_mono_r; lia).
    rewrite Z.pow_add_r in * by lia. change (2 ^ 1) with 2 in *. nia. }
  assert (0 < 2 ^ (e1 + 1074)) by (apply Z.pow_pos_nonneg; lia).
  split.
  - intros [Hlt | [-> Hlt]].
    + apply Hstep; lia.
    + apply Z.mul_lt_mono_pos_r; assumption.
  - intros Hlt. destruct (Z.lt_trichotomy e1 e2) as [Hc | [Hc | Hc]].
    + left. exact Hc.
    + right. split; [exact Hc | ]. subst e2.
      apply Z.mul_lt_mono_pos_r in Hlt; assumption.
    + exfalso. assert (Z.pos m2 * 2 ^ (e2 + 1074) < Z.pos m1 * 2 ^ (e1 + 1074)).
      { apply Hstep; lia. }
      lia.
Qed.

Lemma flt_scaled (x y : double) :
  valid x = true -> valid y = true -> is_finite x = true -> is_finite y = true ->
  flt x y = true <-> scaled x < scaled y.
Proof.
  intros Vx Vy Fx Fy.
  destruct x as [sx | sx | | sx mx ex]; try discriminate;
  destruct y as [sy | sy | | sy my ey]; try discriminate; cbn [scaled].
  - unfold flt, SFltb, SFcompare. split; [discriminate | lia].
  - cbn in Vy. apply bounded_inv in Vy as (He & _).
    assert (0 < 2 ^ (ey + 1074)) by (apply Z.pow_pos_nonneg; lia).
    unfold flt, SFltb, SFcompare. destruct sy; cbn [cond_Zopp]; split; intros; try discriminate; try reflexivity; nia.
  - cbn in Vx. apply bounded_inv in Vx as (He & _).
    assert (0 < 2 ^ (ex + 1074)) by (apply Z.pow_pos_nonneg; lia).
    unfold flt, SFltb, SFcompare. destruct sx; cbn [cond_Zopp]; split; intros; try discriminate; try reflexivity; nia.
  - cbn in Vx, Vy.
    pose proof (bounded_inv _ _ Vx) as (Hex & _). pose proof (bounded_inv _ _ Vy) as (Hey & _).
    assert (0 < 2 ^ (ex + 1074)) by (apply Z.pow_pos_nonneg; lia).
    assert (0 < 2 ^ (ey + 1074)) by (apply Z.pow_pos_nonneg; lia).
    destruct sx, sy; cbn [cond_Zopp].
    + (* both negative *)
      pose proof (scaled_pos_lt my mx ey ex Vy Vx) as Hc.
      pose proof (SFltb_pos my mx ey ex) as Hp.
      assert (E : flt (S754_finite true mx ex) (S754_finite true my ey)
                  = SFltb (S754_finite false my ey) (S754_finite false mx ex)).
      { unfold flt, SFltb, SFcompare.
        rewrite (Pos.compare_cont_antisym mx my Eq). cbn [CompOpp].
        rewrite (Z.compare_antisym ex ey).
        destruct (ex ?= ey); cbn [CompOpp]; reflexivity. }
      rewrite E, Hp, Hc. lia.
    + unfold flt, SFltb, SFcompare. split; intros; [nia | reflexivity].
    + unfold flt, SFltb, SFcompare. split; intros; [discriminate | nia].
    + unfold flt. rewrite SFltb_pos. apply scaled_pos_lt; assumption.
Qed.

Lemma value_scaled (x : double) :
  valid x = true -> (value x == inject_Z (scaled x) * 2 ^ (-1074))%Q.
Proof.
  intros V. destruct x as [sx | sx | | sx mx ex]; cbn [value scaled];
    try (rewrite Qmult_0_l; reflexivity).
  cbn in V. apply bounded_inv in V as (He & _).
  rewrite inject_Z_mult, Zpower_Qpower by lia.
  rewrite <- Qmult_assoc, <- Qpower_plus by discriminate.
  replace (ex + 1074 + -1074) with ex by lia. reflexivity.
Qed.

Lemma flt_Q (x y : double) :
  valid x = true -> valid y = true -> is_finite x = true -> is_finite y = true ->
  flt x y = true <-> (value x < value y)%Q.
Proof.
  intros Vx Vy Fx Fy. rewrite flt_scaled by assumption.
  rewrite (value_scaled x Vx), (value_scaled y Vy).
  rewrite Qmult_lt_r by (apply Qpower_0_lt; reflexivity).
  rewrite Zlt_Qlt. reflexivity.
Qed.

Lemma ratio_Q_gt (h w : Z) : 0 < w -> (3 # 2 < inject_Z h / inject_Z w)%Q <-> 3 * w < 2 * h.
Proof.
  intros Hw. destruct w as [ | p | p]; try lia.
  unfold Qdiv, Qinv, Qmult, Qlt, inject_Z. cbn [Qnum Qden]. lia.
Qed.

Lemma ratio_Q_lt (h w : Z) : 0 < w -> (inject_Z h / inject_Z w < 8)%Q <-> h < 8 * w.
Proof.
  intros Hw. destruct w as [ | p | p]; try lia.
  unfold Qdiv, Qinv, Qmult, Qlt, inject_Z. cbn [Qnum Qden]. lia.
Qed.

End DoubleFacts.

(** ** Masks: thresholding and union *)

Section Masks.
Local Open Scope Z_scope.

Lemma pixel_map {A B : Type} (f : A -> B) (g : list (list A)) (i j : nat) :
  pixel (map (map f) g) i j = f <$> pixel g i j.
Proof.
  unfold pixel. change (map (map f) g) with (map f <$> g).
  rewrite list_lookup_fmap. destruct (g !! i) as [row | ]; cbn; [ | reflexivity].
  change (map f row) with (f <$> row). apply list_lookup_fmap.
Qed.

Lemma inRange_shape (src : Color) (lo hi : Scalar) :
  shape (inRange src lo hi) = shape src.
Proof.
  unfold shape, inRange. rewrite map_map. apply map_ext. intros row. apply length_map.
Qed.

Lemma inRange_pixel (src : Color) (lo hi : Scalar) (i j : nat) :
  pixel (inRange src lo hi) i j
  = (fun q => if in_bounds lo hi q then 255 else 0) <$> pixel src i j.
Proof. apply pixel_map. Qed.

Lemma inRange_map (f : Vec3b -> Vec3b) (src : Color) (lo hi : Scalar) :
  inRange (map (map f) src) lo hi
  = map (map (fun q => if in_bounds lo hi (f q) then 255 else 0)) src.
Proof.
  unfold inRange. rewrite map_map. apply map_ext. intros row. apply map_map.
Qed.

Lemma zip_lor_comm (a b : list Z) : zip_with Z.lor a b = zip_with Z.lor b a.
Proof.
  revert b. induction a as [ | x a IH]; intros [ | y b]; cbn; try reflexivity.
  rewrite Z.lor_comm, IH. reflexivity.
Qed.

Lemma zip_lor_assoc (a b c : list Z) :
  zip_with Z.lor (zip_with Z.lor a b) c = zip_with Z.lor a (zip_with Z.lor b c).
Proof.
  revert b c. induction a as [ | x a IH]; intros [ | y b] [ | z c]; cbn; try reflexivity.
  rewrite Z.lor_assoc, IH. reflexivity.
Qed.

Lemma grid_or_comm (a b : Gray) :
  zip_with (zip_with Z.lor) a b = zip_with (zip_with Z.lor) b a.
Proof.
  revert b. induction a as [ | x a IH]; intros [ | y b]; cbn; try reflexivity.
  rewrite zip_lor_comm, IH. reflexivity.
Qed.

Lemma grid_or_assoc (a b c : Gray) :
  zip_with (zip_with Z.lor) (zip_with (zip_with Z.lor) a b) c
  = zip_with (zip_with Z.lor) a (zip_with (zip_with Z.lor) b c).
Proof.
  revert b c. induction a as [ | x a IH]; intros [ | y b] [ | z c]; cbn; try reflexivity.
  rewrite zip_lor_assoc, IH. reflexivity.
Qed.

Lemma grid_or_shape (a b : Gray) :
  shape a = shape b -> shape (zip_with (zip_with Z.lor) a b) = shape a.
Proof.
  unfold shape. revert b. induction a as [ | x a IH]; intros [ | y b]; cbn;
    try reflexivity; try discriminate.
  intros E. injection E as E1 E2. rewrite (IH b E2). f_equal.
  rewrite length_zip_with. lia.
Qed.

Lemma bitwise_or_comm (a b : Gray) : bitwise_or a b = bitwise_or b a.
Proof.
  unfold bitwise_or.
  destruct (decide (shape a = shape b)) as [E | N];
    destruct (decide (shape b = shape a)) as [E' | N']; try congruence.
  rewrite grid_or_comm. reflexivity.
Qed.

Lemma bitwise_or_assoc (a b c : Gray) :
  bitwise_or a b ≫= (fun ab => bitwise_or ab c)
  = bitwise_or b c ≫= (fun bc => bitwise_or a bc).
Proof.
  unfold bitwise_or.
  destruct (decide (shape a = shape b)) as [Eab | Nab];
    destruct (decide (shape b = shape c)) as [Ebc | Nbc]; cbn.
  - rewrite (grid_or_shape a b Eab), (grid_or_shape b c Ebc).
    destruct (decide (shape a = shape c)); destruct (decide (shape a = shape b));
      try congruence.
    rewrite grid_or_assoc. reflexivity.
  - rewrite (grid_or_shape a b Eab).
    destruct (decide (shape a = shape c)); congruence.
  - rewrite (grid_or_shape b c Ebc).
    destruct (decide (shape a = shape b)); congruence.
  - reflexivity.
Qed.

Lemma zip_with_map_same {A B C D : Type} (f : B -> C -> D) (g : A -> B) (h : A -> C)
    (l : list A) :
  zip_with f (map g l) (map h l) = map (fun x => f (g x) (h x)) l.
Proof. induction l as [ | x l IH]; cbn; [reflexivity | rewrite IH; reflexivity]. Qed.

Lemma bitwise_or_inRange (src : Color) (P Q : Vec3b -> bool) :
  bitwise_or (map (map (fun q => if P q then 255 else 0)) src)
             (map (map (fun q => if Q q then 255 else 0)) src)
  = Some (map (map (fun q => if P q || Q q then 255 else 0)) src).
Proof.
  unfold bitwise_or. rewrite decide_True.
  - f_equal. rewrite zip_with_map_same. apply map_ext. intros row.
    rewrite zip_with_map_same. apply map_ext. intros q.
    destruct (P q), (Q q); reflexivity.
  - unfold shape. rewrite !map_map. apply map_ext. intros row.
    rewrite !length_map. reflexivity.
Qed.

End Masks.

(** ** Reasoning about runs *)

Section Runs.

Lemma returns_ret {A : Type} (a : A) (w : World) (P : World -> A -> Prop) :
  P w a -> returns (ret a) w P.
Proof. intros HP. exists w, a. split; [reflexivity | exact HP]. Qed.

Lemma returns_bind {A B : Type} (c : M A) (k : A -> M B) (w : World)
    (P : World -> B -> Prop) :
  returns c w (fun w1 a => returns (k a) w1 P) -> returns (bind c k) w P.
Proof.
  intros (w1 & a & Hc & w2 & b & Hk & HP). exists w2, b. split; [ | exact HP].
  unfold bind. rewrite Hc. exact Hk.
Qed.

Lemma returns_weaken {A : Type} (c : M A) (w : World) (P Q : World -> A -> Prop) :
  returns c w P -> (forall w' a, P w' a -> Q w' a) -> returns c w Q.
Proof. intros (w' & a & Hc & HP) HPQ. exists w', a. split; [exact Hc | apply HPQ, HP]. Qed.

Lemma frame_refl (w : World) : frame w w.
Proof. repeat split; auto. Qed.

Lemma frame_trans (w1 w2 w3 : World) : frame w1 w2 -> frame w2 w3 -> frame w1 w3.
Proof.
  intros (H1 & F1 & E1 & D1) (H2 & F2 & E2 & D2). repeat split; try congruence.
  intros l p Hl. apply H2, H1, Hl.
Qed.

Lemma frame_load (w w' : World) (m : Mat) (p : Pixels) :
  frame w w' -> load w m = Some p -> load w' m = Some p.
Proof. intros (Hh & _) Hm. destruct m as [l | ]; [apply Hh, Hm | discriminate]. Qed.

Lemma returns_print (l : Line) (w : World) (P : World -> unit -> Prop) :
  (forall w', frame w w' -> P w' tt) -> returns (print l) w P.
Proof.
  intros HP. eexists _, tt. split; [reflexivity | ]. apply HP. repeat split; auto.
Qed.

Lemma returns_alloc (p : Pixels) (w : World) (P : World -> Mat -> Prop) :
  (forall w' m, frame w w' -> load w' m = Some p -> P w' m) -> returns (alloc p) w P.
Proof.
  intros HP. eexists _, _. split; [reflexivity | ]. apply HP.
  - repeat split; auto. intros l q Hl. cbn.
    rewrite lookup_insert_ne; [exact Hl | ].
    intros E. apply (is_fresh (dom (heap w))). rewrite E. eapply elem_of_dom_2, Hl.
  - cbn. apply lookup_insert_eq.
Qed.

Lemma returns_Mat_empty (m : Mat) (w : World) (p : Pixels) (P : World -> bool -> Prop) :
  load w m = Some p -> total p <> 0%Z -> P w false -> returns (Mat_empty m) w P.
Proof.
  intros Hm Hne HP. exists w, false. split; [ | exact HP].
  unfold Mat_empty. rewrite Hm. apply Z.eqb_neq in Hne. rewrite Hne. reflexivity.
Qed.

Lemma returns_read_color (m : Mat) (w : World) (g : Color) (P : World -> Color -> Prop) :
  load w m = Some (C3 g) -> P w g -> returns (read_color m) w P.
Proof.
  intros Hm HP. exists w, g. split; [ | exact HP]. unfold read_color. rewrite Hm. reflexivity.
Qed.

End Runs.

(** ** The acceptance rule *)

Section Classifier.
Context `{OpenCV}.
Local Open Scope Z_scope.

Lemma value_of_int_50 : (value (of_int 50) == 50)%Q.
Proof. vm_compute. reflexivity. Qed.

Lemma value_of_int_5000 : (value (of_int 5000) == 5000)%Q.
Proof. vm_compute. reflexivity. Qed.

Lemma area_window (a : double) :
  valid a = true ->
  fgt a (of_int 50) = true /\ flt a (of_int 5000) = true
  <-> is_finite a = true /\ (50 < value a)%Q /\ (value a < 5000)%Q.
Proof.
  intros Va. destruct (is_finite a) eqn:Fa.
  - unfold fgt.
    rewrite (flt_Q (of_int 50) a), (flt_Q a (of_int 5000)) by (assumption || reflexivity).
    rewrite value_of_int_50, value_of_int_5000. tauto.
  - split; [ | intros [? _]; discriminate].
    destruct a as [s | [ | ] | | s m e]; try discriminate; vm_compute; intros [? ?]; discriminate.
Qed.

Lemma isValidLightBar_iff (area : double) (r : Rect) :
  valid area = true -> in_int (width r) -> in_int (height r) ->
  isValidLightBar area (fdiv (of_int (height r)) (of_int (width r))) r = true
  <-> is_finite area = true
      /\ (50 < value area)%Q /\ (value area < 5000)%Q
      /\ (3 # 2 < inject_Z (height r) / inject_Z (width r))%Q
      /\ (inject_Z (height r) / inject_Z (width r) < 8)%Q
      /\ 3 < width r /\ 10 < height r.
Proof.
  intros Va Hw Hh. unfold in_int, INT_MIN, INT_MAX in Hw, Hh.
  unfold isValidLightBar. rewrite !andb_true_iff, (area_window area Va).
  rewrite <- !Zgt_is_gt_bool.
  split.
  - intros (((((Ha & Ha') & R1) & R2) & W) & Ht).
    assert (Bw : 0 < width r < 2 ^ 31) by (clear Ha'; lia).
    assert (Bh : 0 < height r < 2 ^ 31) by (clear Ha'; lia).
    rewrite ratio_gt_1_5 in R1 by assumption.
    rewrite ratio_lt_8 in R2 by assumption.
    rewrite ratio_Q_gt, ratio_Q_lt by apply Bw.
    destruct Ha' as [A1 A2]. repeat split; try assumption.
    + clear A1 A2. lia.
    + clear A1 A2. lia.
  - intros (Fa & A1 & A2 & R1 & R2 & W & Ht).
    assert (Bw : 0 < width r < 2 ^ 31) by (clear A1 A2 R1 R2; lia).
    assert (Bh : 0 < height r < 2 ^ 31) by (clear A1 A2 R1 R2; lia).
    rewrite ratio_Q_gt in R1 by apply Bw. rewrite ratio_Q_lt in R2 by apply Bw.
    rewrite ratio_gt_1_5, ratio_lt_8 by assumption.
    repeat split; try assumption; clear A1 A2; lia.
Qed.

Lemma mask_of_total (src : Color) : total (C1 (mask_of src)) = total (C3 src).
Proof.
  unfold total, rows, cols, mask_of. rewrite length_map.
  destruct src as [ | row src]; cbn [hd map]; [reflexivity | ].
  rewrite length_map. reflexivity.
Qed.

Lemma color_mask_eq (src : Color) :
  color_mask src = Some (mask_of src).
Proof.
  unfold color_mask, mask_of. rewrite !inRange_map.
  rewrite (bitwise_or_inRange src
             (fun q => in_bounds red_lower1 red_upper1 (bgr2hsv q))
             (fun q => in_bounds red_lower2 red_upper2 (bgr2hsv q))).
  rewrite (bitwise_or_inRange src
             (fun q => in_bounds red_lower1 red_upper1 (bgr2hsv q)
                       || in_bounds red_lower2 red_upper2 (bgr2hsv q))
             (fun q => in_bounds blue_lower blue_upper (bgr2hsv q))).
  reflexivity.
Qed.

End Classifier.

(** ** The loop over the contours *)

Section Loop.
Context `{OpenCV}.
Local Open Scope Z_scope.

Lemma filter_step_run (l : loc) (p : Pixels) (c : Contour) (acc : list Rect) (w : World) :
  heap w !! l = Some p ->
  filter_step (Some l) c acc w =
  (after_step l p (S (length acc)) c w,
   inr (if accepts c then acc ++ [boundingRect c] else acc)).
Proof.
  intros Hl. unfold filter_step, after_step, accepts, aspectRatio_of.
  unfold bind at 1. unfold divide at 1. cbn [fst snd].
  destruct (isValidLightBar _ _ _) eqn:Hv; [ | reflexivity].
  unfold bind, draw, print, ret. cbn. rewrite Hl. cbn.
  rewrite lookup_insert_eq. cbn. rewrite insert_insert_eq.
  rewrite length_app, Nat.add_1_r. reflexivity.
Qed.

Lemma for_each_filter_step (l : loc) (cs : list Contour) :
  forall (p : Pixels) (acc : list Rect) (w : World),
  heap w !! l = Some p ->
  for_each (filter_step (Some l)) cs acc w =
  (after_loop l p (S (length acc)) cs w,
   inr (acc ++ map boundingRect (List.filter accepts cs))).
Proof.
  induction cs as [ | c cs IH]; intros p acc w Hl.
  - cbn. unfold ret, after_loop. cbn.
    rewrite (insert_id _ _ _ Hl), !app_nil_r. destruct w; reflexivity.
  - cbn [for_each]. unfold bind at 1. rewrite (filter_step_run l p c acc w Hl).
    unfold after_step, after_loop. cbn [List.filter].
    destruct (accepts c) eqn:Hc.
    + rewrite (IH (annotate p c) (acc ++ [boundingRect c])); cycle 1.
      { cbn. apply lookup_insert_eq. }
      unfold after_loop. cbn. rewrite insert_insert_eq.
      rewrite length_app, Nat.add_1_r, <- !app_assoc. reflexivity.
    + rewrite (IH p acc); [ | exact Hl].
      unfold after_loop. cbn. rewrite <- !app_assoc. reflexivity.
Qed.

Lemma load_after_alloc (w : World) (m : Mat) (q p : Pixels) :
  load w m = Some q ->
  load (set_heap (<[fresh (dom (heap w)) := p]> (heap w)) w) m = Some q.
Proof.
  destruct m as [lb | ]; [ | discriminate]. cbn. intros Hm.
  rewrite lookup_insert_ne; [exact Hm | ].
  intros E. apply (is_fresh (dom (heap w))). rewrite E. eapply elem_of_dom_2, Hm.
Qed.

Lemma filter_contours_run (this : ImageProcessor) (binaryImage : Mat) (w : World)
    (p : Pixels) (g : Gray) :
  load w (image this) = Some p ->
  load w binaryImage = Some (C1 g) ->
  filter_contours this binaryImage w =
  (after_filter p (findContours g) w,
   inr (map boundingRect (List.filter accepts (findContours g)),
        Some (fresh (dom (heap w))))).
Proof.
  intros Hp Hg. unfold filter_contours.
  unfold bind at 1. unfold Mat_clone. rewrite Hp. unfold alloc.
  unfold bind at 1. unfold read_gray.
  rewrite (load_after_alloc w binaryImage (C1 g) p Hg).
  unfold bind at 1. unfold print at 1.
  unfold bind at 1.
  rewrite (for_each_filter_step _ _ p); [ | cbn; apply lookup_insert_eq].
  unfold bind, print, ret, after_loop, after_filter. cbn.
  rewrite insert_insert_eq, length_map, <- !app_assoc. reflexivity.
Qed.

Lemma filterLightBars_run (this : ImageProcessor) (binaryImage visualResult : Mat)
    (w : World) (p : Pixels) (g : Gray) :
  load w (image this) = Some p ->
  load w binaryImage = Some (C1 g) ->
  total (C1 g) <> 0 ->
  filterLightBars this binaryImage visualResult w =
  (after_filter p (findContours g) w,
   inr (Some (fresh (dom (heap w))), Some (fresh (dom (heap w))))).
Proof.
  intros Hp Hg Hne. unfold filterLightBars.
  unfold bind at 1. unfold Mat_empty. rewrite Hg.
  apply Z.eqb_neq in Hne. rewrite Hne.
  unfold bind at 1. rewrite (filter_contours_run this binaryImage w p g Hp Hg).
  reflexivity.
Qed.

End Loop.

(** ** The stages, and the run of [main] *)

Section Pipeline.
Context `{OpenCV}.
Local Open Scope Z_scope.

Lemma returns_try_catch_cv {A : Type} (body handler : M A) (w : World)
    (P : World -> A -> Prop) :
  returns body w P -> returns (try_catch_cv body handler) w P.
Proof.
  intros (w' & a & Hb & HP). exists w', a.
  split; [unfold try_catch_cv; rewrite Hb; reflexivity | exact HP].
Qed.

(** The constructor on a file that is missing or decodes to an empty
    image. *)
Lemma ImageProcessor_new_load_failed (path : string) (w : World) :
  match files w !! path with
  | Some src => total (C3 src) = 0
  | None => True
  end ->
  exists w1,
    ImageProcessor_new path w = (w1, inl (ImageProcessorException (MsgLoadFailed path)))
    /\ cerr w1 = cerr w /\ cout w1 = cout w /\ files w1 = files w
    /\ forall l p, heap w !! l = Some p -> heap w1 !! l = Some p.
Proof.
  intros Hfile. unfold ImageProcessor_new, ImageProcessor_from, try_catch_cv.
  unfold bind at 1. unfold imread.
  destruct (files w !! path) as [src | ] eqn:Hf.
  - unfold alloc. unfold bind at 1. unfold Mat_empty. cbn.
    rewrite lookup_insert_eq, Hfile. cbn.
    eexists. split; [reflexivity | ]. cbn. repeat split.
    intros l p Hl. rewrite lookup_insert_ne; [exact Hl | ].
    intros E. apply (is_fresh (dom (heap w))). rewrite E. eapply elem_of_dom_2, Hl.
  - unfold bind at 1. unfold Mat_empty. cbn.
    eexists. split; [reflexivity | ]. cbn. repeat split. auto.
Qed.

Lemma ImageProcessor_new_returns (path : string) (w : World) (src : Color)
    (P : World -> ImageProcessor -> Prop) :
  files w !! path = Some src -> total (C3 src) <> 0 ->
  (forall w' this, frame w w' -> load w' (image this) = Some (C3 src) ->
                   imagePath this = path -> P w' this) ->
  returns (ImageProcessor_new path) w P.
Proof.
  intros Hf Hne HP. unfold ImageProcessor_new, ImageProcessor_from.
  apply returns_try_catch_cv.
  apply returns_bind.
  assert (Hread : returns (imread path) w
            (fun w1 m => frame w w1 /\ load w1 m = Some (C3 src))).
  { unfold imread, returns. rewrite Hf.
    apply (returns_alloc (C3 src) w). auto. }
  apply (returns_weaken _ _ _ _ Hread). intros w1 m [F1 L1].
  apply returns_bind. apply (returns_Mat_empty m w1 (C3 src)); [exact L1 | exact Hne | ].
  apply returns_bind. apply returns_print. intros w2 F2.
  apply returns_ret. apply HP.
  - eapply frame_trans; eassumption.
  - cbn. eapply frame_load; eassumption.
  - reflexivity.
Qed.

Lemma displayImageInfo_returns (this : ImageProcessor) (w : World) (p : Pixels)
    (P : World -> unit -> Prop) :
  load w (image this) = Some p -> total p <> 0 ->
  (forall w', frame w w' -> P w' tt) ->
  returns (displayImageInfo this) w P.
Proof.
  intros Hl Hne HP. unfold displayImageInfo.
  apply returns_bind. apply (returns_Mat_empty _ w p _ Hl Hne).
  apply returns_bind. unfold getImageSize.
  apply returns_bind. apply (returns_Mat_empty _ w p _ Hl Hne).
  eexists w, _. split; [reflexivity | ].
  apply returns_bind. apply returns_print. intros w1 F1.
  apply returns_bind. apply returns_print. intros w2 F2.
  apply returns_bind. apply returns_print. intros w3 F3.
  assert (F : frame w w3) by (eapply frame_trans; [eapply frame_trans | ]; eassumption).
  apply returns_bind. unfold getChannels.
  apply returns_bind. apply (returns_Mat_empty _ w3 p); [eapply frame_load; eassumption | exact Hne | ].
  eexists w3, _. split; [reflexivity | ].
  apply returns_bind. apply returns_print. intros w4 F4.
  apply returns_print. intros w5 F5. apply HP.
  eapply frame_trans; [exact F | ]. eapply frame_trans; eassumption.
Qed.

Lemma convertToGray_returns (this : ImageProcessor) (w : World) (src : Color)
    (P : World -> Mat -> Prop) :
  load w (image this) = Some (C3 src) -> total (C3 src) <> 0 ->
  (forall w' m, frame w w' -> P w' m) ->
  returns (convertToGray this) w P.
Proof.
  intros Hl Hne HP. unfold convertToGray.
  apply returns_bind. apply (returns_Mat_empty _ w _ _ Hl Hne).
  apply returns_bind. apply (returns_read_color _ w src _ Hl).
  apply returns_alloc. intros w' m F _. apply HP, F.
Qed.

Lemma applyMeanBlur_returns (this : ImageProcessor) (kernelSize : Z) (w : World)
    (src : Color) (P : World -> Mat -> Prop) :
  load w (image this) = Some (C3 src) -> total (C3 src) <> 0 ->
  (kernelSize <=? 0) || (Z.rem kernelSize 2 =? 0) = false ->
  (forall w' m, frame w w' -> P w' m) ->
  returns (applyMeanBlur this kernelSize) w P.
Proof.
  intros Hl Hne Hk HP. unfold applyMeanBlur.
  apply returns_bind. apply (returns_Mat_empty _ w _ _ Hl Hne). rewrite Hk.
  apply returns_bind. apply (returns_read_color _ w src _ Hl).
  apply returns_alloc. intros w' m F _. apply HP, F.
Qed.

Lemma applyGaussianBlur_returns (this : ImageProcessor) (kernelSize : Z) (sigmaX : double)
    (w : World) (src : Color) (P : World -> Mat -> Prop) :
  load w (image this) = Some (C3 src) -> total (C3 src) <> 0 ->
  (kernelSize <=? 0) || (Z.rem kernelSize 2 =? 0) = false ->
  (forall w' m, frame w w' -> P w' m) ->
  returns (applyGaussianBlur this kernelSize sigmaX) w P.
Proof.
  intros Hl Hne Hk HP. unfold applyGaussianBlur.
  apply returns_bind. apply (returns_Mat_empty _ w _ _ Hl Hne). rewrite Hk.
  apply returns_bind. apply (returns_read_color _ w src _ Hl).
  apply returns_alloc. intros w' m F _. apply HP, F.
Qed.

(** The colour mask of an image, pixel by pixel. *)
Lemma extractLightBars_returns (this : ImageProcessor) (w : World) (src : Color)
    (P : World -> Mat -> Prop) :
  load w (image this) = Some (C3 src) -> total (C3 src) <> 0 ->
  (forall w' m, frame w w' ->
     load w' m = Some (C1 (refine_mask (mask_of src))) ->
     P w' m) ->
  returns (extractLightBars this) w P.
Proof.
  intros Hl Hne HP. unfold extractLightBars.
  apply returns_bind. apply (returns_Mat_empty _ w _ _ Hl Hne).
  apply returns_bind. apply (returns_read_color _ w src _ Hl).
  apply returns_bind. rewrite color_mask_eq. apply returns_ret.
  apply returns_bind. apply returns_print. intros w1 F1.
  apply returns_alloc. intros w2 m F2 L2. apply HP; [ | exact L2].
  eapply frame_trans; eassumption.
Qed.

Lemma load_after_filter (p q : Pixels) (cs : list Contour) (w : World) (m : Mat) :
  load w m = Some q -> load (after_filter p cs w) m = Some q.
Proof.
  destruct m as [lb | ]; [ | discriminate]. cbn. intros Hm.
  rewrite lookup_insert_ne; [exact Hm | ].
  intros E. apply (is_fresh (dom (heap w))). rewrite E. eapply elem_of_dom_2, Hm.
Qed.

Ltac load_frame :=
  repeat first [eassumption | eapply frame_load; [eassumption | ]].

Lemma main_try_returns (w : World) (src : Color) (P : World -> Results -> Prop) :
  let mask := refine_mask (mask_of src) in
  let cs := findContours mask in
  files w !! "hero.png" = Some src -> total (C3 src) <> 0 -> total (C1 mask) <> 0 ->
  (forall w' res,
     load w' (lightBarMask res) = Some (C1 mask) ->
     load w' (visualResult res) = Some (foldl annotate (C3 src) (List.filter accepts cs)) ->
     filteredResult res = visualResult res ->
     (forall l p, heap w !! l = Some p -> heap w' !! l = Some p) ->
     fdivs w' = fdivs w ++ map ratio_operands cs ->
     cerr w' = cerr w ->
     load w' (image (processor res)) = Some (C3 src) ->
     image (processor res) <> visualResult res ->
     files w' = files w ->
     P w' res) ->
  returns main_try w P.
Proof.
  intros mask cs Hf Hsrc Hmask HP. unfold main_try.
  apply returns_bind. apply returns_print. intros w1 F1.
  apply returns_bind.
  apply (ImageProcessor_new_returns _ w1 src);
    [destruct F1 as (_ & -> & _); exact Hf | exact Hsrc | ].
  intros w2 this F2 Limg _.
  apply returns_bind. apply (displayImageInfo_returns this w2 _ _ Limg Hsrc). intros w3 F3.
  apply returns_bind. apply returns_print. intros w4 F4.
  assert (L4 : load w4 (image this) = Some (C3 src)) by load_frame.
  apply returns_bind. apply (convertToGray_returns this w4 src _ L4 Hsrc). intros w5 gray F5.
  apply returns_bind. apply returns_print. intros w6 F6.
  assert (L6 : load w6 (image this) = Some (C3 src)) by load_frame.
  apply returns_bind.
  apply (applyMeanBlur_returns this 5 w6 src _ L6 Hsrc eq_refl). intros w7 blurred F7.
  apply returns_bind. apply returns_print. intros w8 F8.
  assert (L8 : load w8 (image this) = Some (C3 src)) by load_frame.
  apply returns_bind.
  apply (applyGaussianBlur_returns this 5 _ w8 src _ L8 Hsrc eq_refl). intros w9 gauss F9.
  apply returns_bind. apply returns_print. intros w10 F10.
  apply returns_bind. apply returns_print. intros w11 F11.
  assert (L11 : load w11 (image this) = Some (C3 src)) by load_frame.
  apply returns_bind.
  apply (extractLightBars_returns this w11 src _ L11 Hsrc). intros w12 lbm F12 Lmask.
  apply returns_bind. apply returns_print. intros w13 F13.
  assert (L13 : load w13 (image this) = Some (C3 src)) by load_frame.
  assert (M13 : load w13 lbm = Some (C1 mask)) by load_frame.
  assert (F : frame w w13).
  { repeat (eapply frame_trans; [eassumption | ]). apply frame_refl. }
  apply returns_bind. unfold returns.
  rewrite (filterLightBars_run this lbm None w13 (C3 src) mask L13 M13 Hmask).
  eexists _, _. split; [reflexivity | ].
  apply returns_ret. cbn [fst snd].
  apply HP; cbn [lightBarMask visualResult filteredResult processor].
  - apply load_after_filter, M13.
  - cbn. apply lookup_insert_eq.
  - reflexivity.
  - intros l p Hl. destruct F as (Fh & _). specialize (Fh l p Hl).
    apply (load_after_filter (C3 src) p cs w13 (Some l)). exact Fh.
  - cbn. destruct F as (_ & _ & _ & ->). reflexivity.
  - cbn. destruct F as (_ & _ & -> & _). reflexivity.
  - apply load_after_filter, L13.
  - destruct (image this) as [li | ]; [ | discriminate].
    intros E. injection E as E. apply (is_fresh (dom (heap w13))).
    rewrite <- E. eapply elem_of_dom_2, L13.
  - cbn. destruct F as (_ & -> & _). reflexivity.
Qed.

End Pipeline.

(** ** The claims of the specification *)

Section Claims.
Context `{OpenCV}.
Local Open Scope Z_scope.

Lemma filter_sublist {A : Type} (f : A -> bool) (l : list A) :
  sublist (List.filter f l) l.
Proof.
  induction l as [ | a l IH]; cbn; [constructor | ].
  destruct (f a); [apply sublist_skip | apply sublist_cons]; exact IH.
Qed.

Lemma accepts_size (c : Contour) :
  accepts c = true -> 4 <= width (boundingRect c) /\ 11 <= height (boundingRect c).
Proof.
  unfold accepts, isValidLightBar. rewrite !andb_true_iff, <- !Zgt_is_gt_bool.
  intros ((_ & W) & Ht). lia.
Qed.

Lemma fdiv_zero_not_finite (x : double) : is_finite (fdiv x (S754_zero false)) = false.
Proof. destruct x as [s | s | | s m e]; reflexivity. Qed.

Lemma zero_width_not_accepted (c : Contour) :
  width (boundingRect c) = 0 -> accepts c = false.
Proof.
  intros Hw. unfold accepts, isValidLightBar. rewrite Hw.
  change (0 >? 3) with false. rewrite andb_false_r. reflexivity.
Qed.

(** C1. A contour is accepted exactly when its area lies strictly between 50
    and 5000, its aspect ratio (height over width of the bounding rectangle)
    lies strictly between 1.5 and 8.0, its width exceeds 3 and its height
    exceeds 10; in particular an area of exactly 50 or 5000, or a ratio of
    exactly 1.5 or 8.0, is rejected. Areas and ratios are compared as the
    real numbers the measurements denote. This is the verdict of the loop
    body of [filterLightBars] itself: inside the bounds it appends the
    bounding rectangle to the vector, draws on [visualResult] and prints the
    summary with the next rank; outside them it leaves the vector, the
    image and the output as they are. In both cases it has divided the
    height by the width. *)
Theorem classifier_accepts_iff (c : Contour) (l : loc) (p : Pixels)
    (validLightBars : list Rect) (w : World) :
  valid (contourArea c) = true ->
  in_int (width (boundingRect c)) -> in_int (height (boundingRect c)) ->
  heap w !! l = Some p ->
  let area := value (contourArea c) in
  let aspectRatio := (inject_Z (height (boundingRect c)) / inject_Z (width (boundingRect c)))%Q in
  let inside :=
    is_finite (contourArea c) = true
    /\ (50 < area)%Q /\ (area < 5000)%Q
    /\ (3 # 2 < aspectRatio)%Q /\ (aspectRatio < 8)%Q
    /\ 3 < width (boundingRect c) /\ 10 < height (boundingRect c) in
  let operands :=
    (of_int (height (boundingRect c)), of_int (width (boundingRect c))) in
  (accepts c = true <-> inside)
  /\ ((area == 50)%Q \/ (area == 5000)%Q \/ (aspectRatio == 3 # 2)%Q \/ (aspectRatio == 8)%Q
      -> accepts c = false)
  /\ (inside ->
      filter_step (Some l) c validLightBars w
      = (mkWorld (<[l := annotate p c]> (heap w)) (files w)
           (cout w ++ [LineValid (S (length validLightBars)) (contourArea c)
                         (fdiv (fst operands) (snd operands))
                         (rect_x (boundingRect c)) (rect_y (boundingRect c))])
           (cerr w) (fdivs w ++ [operands]),
         inr (validLightBars ++ [boundingRect c])))
  /\ (~ inside ->
      filter_step (Some l) c validLightBars w
      = (mkWorld (heap w) (files w) (cout w) (cerr w) (fdivs w ++ [operands]),
         inr validLightBars)).
Proof.
  intros Va Hw Hh Hl area aspectRatio inside operands.
  pose proof (isValidLightBar_iff (contourArea c) (boundingRect c) Va Hw Hh) as Hiff.
  fold (aspectRatio_of c) in Hiff. fold (accepts c) in Hiff.
  fold area aspectRatio in Hiff. fold inside in Hiff.
  pose proof (filter_step_run l p c validLightBars w Hl) as Hrun.
  unfold after_step in Hrun.
  split; [exact Hiff | ]. split; [ | split].
  - intros Hb. destruct (accepts c) eqn:Hacc; [exfalso | reflexivity].
    destruct Hiff as [Hiff _]. destruct (Hiff eq_refl) as (_ & A1 & A2 & R1 & R2 & _).
    destruct Hb as [E | [E | [E | E]]]; rewrite E in *;
      eapply Qlt_irrefl; eassumption.
  - intros Hin. apply Hiff in Hin. rewrite Hin in Hrun. exact Hrun.
  - intros Hout. destruct (accepts c) eqn:Hacc; [ | exact Hrun].
    exfalso. apply Hout, Hiff. reflexivity.
Qed.

(** C2, as the code has it. A contour whose bounding box has zero width is
    rejected without any error, but not before the aspect ratio is computed:
    the quotient height / 0 is evaluated (an infinity or a NaN, never a
    finite number), and the contour then fails the test; nothing is drawn
    or printed and the vector of light bars is unchanged. *)
Theorem zero_width_rejected (c : Contour) (visualResult : Mat)
    (validLightBars : list Rect) (w : World) :
  width (boundingRect c) = 0 ->
  filter_step visualResult c validLightBars w
  = (mkWorld (heap w) (files w) (cout w) (cerr w)
       (fdivs w ++ [(of_int (height (boundingRect c)), of_int 0)]),
     inr validLightBars)
  /\ is_finite (aspectRatio_of c) = false
  /\ accepts c = false.
Proof.
  intros Hw. pose proof (zero_width_not_accepted c Hw) as Hacc.
  split; [ | split; [ | exact Hacc]].
  - unfold filter_step. unfold bind, divide. cbn [fst snd].
    fold (aspectRatio_of c). fold (accepts c). rewrite Hacc, Hw. reflexivity.
  - unfold aspectRatio_of. rewrite Hw. apply fdiv_zero_not_finite.
Qed.

(** C3. The light bars that the classifier emits are the bounding rectangles
    of the accepted contours, in the order of the input contours, and the
    summary lines are printed in that same order; this is the run of
    [filterLightBars] on a non-empty mask. *)
Theorem filter_preserves_order (this : ImageProcessor) (binaryImage visualResult0 : Mat)
    (w : World) (p : Pixels) (g : Gray) :
  load w (image this) = Some p ->
  load w binaryImage = Some (C1 g) ->
  total (C1 g) <> 0 ->
  let contours := findContours g in
  let accepted := List.filter accepts contours in
  exists w' visualResult,
    filter_contours this binaryImage w
      = (w', inr (map boundingRect accepted, visualResult))
    /\ filterLightBars this binaryImage visualResult0 w
      = (w', inr (visualResult, visualResult))
    /\ sublist accepted contours
    /\ cout w' = cout w ++ [LineFound (length contours)] ++ summaries 1 accepted
                        ++ [LineFiltered (length accepted)].
Proof.
  intros Hp Hg Hne contours accepted.
  exists (after_filter p contours w), (Some (fresh (dom (heap w)))).
  split; [apply (filter_contours_run this binaryImage w p g Hp Hg) | ].
  split; [apply (filterLightBars_run this binaryImage visualResult0 w p g Hp Hg Hne) | ].
  split; [apply filter_sublist | reflexivity].
Qed.

(** C4. The mask is refined by one opening (an erosion, then a dilation)
    followed by one closing (a dilation, then an erosion), both with the
    3 by 3 square of ones; [extractLightBars] returns that refinement of the
    colour mask, and a run of [main] hands exactly this mask, refined once,
    to the classifier. *)
Theorem mask_refined_once (w : World) (src : Color) :
  files w !! "hero.png" = Some src ->
  total (C3 src) <> 0 ->
  total (C1 (refine_mask (mask_of src))) <> 0 ->
  (forall m : Gray,
     refine_mask m = erode (dilate (dilate (erode m kernel3) kernel3) kernel3) kernel3)
  /\ (forall (this : ImageProcessor) (w0 : World),
        load w0 (image this) = Some (C3 src) ->
        returns (extractLightBars this) w0
          (fun w' m => load w' m = Some (C1 (refine_mask (mask_of src)))))
  /\ returns main_try w
       (fun w' res =>
          load w' (lightBarMask res) = Some (C1 (refine_mask (mask_of src)))
          /\ fdivs w' = fdivs w
               ++ map ratio_operands (findContours (refine_mask (mask_of src)))).
Proof.
  intros Hf Hsrc Hmask. split; [reflexivity | split].
  - intros this w0 Hl. apply (extractLightBars_returns this w0 src _ Hl Hsrc).
    intros w' m _ Hm. exact Hm.
  - apply (main_try_returns w src _ Hf Hsrc Hmask).
    intros w' res Hm _ _ _ Hd _ _ _ _. split; assumption.
Qed.

(** C5. The union of masks is commutative and associative, and the colour
    mask is the union of the two red masks and the blue mask: a pixel is
    foreground (255) exactly when its HSV value lies in one of the three
    ranges, and background (0) otherwise. *)
Theorem mask_union (a b c : Gray) (src : Color) :
  bitwise_or a b = bitwise_or b a
  /\ bitwise_or a b ≫= (fun ab => bitwise_or ab c)
     = bitwise_or b c ≫= (fun bc => bitwise_or a bc)
  /\ (let hsv_image := map (map bgr2hsv) src in
      color_mask src
      = bitwise_or (inRange hsv_image red_lower1 red_upper1)
                   (inRange hsv_image red_lower2 red_upper2)
        ≫= (fun red_mask => bitwise_or red_mask (inRange hsv_image blue_lower blue_upper)))
  /\ exists final_mask,
       color_mask src = Some final_mask
       /\ forall i j,
            pixel final_mask i j
            = (fun q => if in_bounds red_lower1 red_upper1 (bgr2hsv q)
                           || in_bounds red_lower2 red_upper2 (bgr2hsv q)
                           || in_bounds blue_lower blue_upper (bgr2hsv q)
                        then 255 else 0) <$> pixel src i j.
Proof.
  split; [apply bitwise_or_comm | ]. split; [apply bitwise_or_assoc | ].
  split.
  - unfold color_mask. cbv zeta.
    destruct (bitwise_or _ _); reflexivity.
  - exists (mask_of src). split; [apply color_mask_eq | ].
    intros i j. unfold mask_of. apply pixel_map.
Qed.

(** C6. An empty image makes [extractLightBars] throw, and an empty mask
    makes [filterLightBars] throw, before anything is computed: the world is
    left as it was. (The refinement, which is part of [extractLightBars],
    has no test of its own: past the guard its mask has as many elements as
    the image.) An exception ends the run of the stages that follow, and
    [main] reports it and returns -1; when the image cannot be loaded
    nothing but the title line has been printed. *)
Theorem empty_input_aborts (this : ImageProcessor) (binaryImage visualResult : Mat)
    (display_and_save : Results -> M unit) (w : World) :
  (empty_in w (image this) ->
   extractLightBars this w = (w, inl (ImageProcessorException MsgEmptyExtract)))
  /\ (empty_in w binaryImage ->
      filterLightBars this binaryImage visualResult w
      = (w, inl (ImageProcessorException MsgEmptyBinary)))
  /\ (forall src : Color, total (C1 (mask_of src)) = total (C3 src))
  /\ (forall (A B : Type) (stage : M A) (rest : A -> M B) (w' : World) (e : Exn),
        stage w = (w', inl e) -> bind stage rest w = (w', inl e))
  /\ (forall (w' : World) (e : Exn),
        main_try w = (w', inl e) -> main display_and_save w = (eprint e w', -1))
  /\ (match files w !! "hero.png" with
      | Some src => total (C3 src) = 0
      | None => True
      end ->
      exists w',
        main display_and_save w = (w', -1)
        /\ cerr w' = cerr w ++ [ImageProcessorException (MsgLoadFailed "hero.png")]
        /\ cout w' = cout w ++ [LineMain BannerTitle]
        /\ forall l p, heap w !! l = Some p -> heap w' !! l = Some p).
Proof.
  split; [ | split; [ | split; [ | split; [ | split]]]].
  - unfold empty_in. intros He. unfold extractLightBars, bind, Mat_empty.
    destruct (load w (image this)) as [p | ]; [rewrite He | ]; reflexivity.
  - unfold empty_in. intros He. unfold filterLightBars, bind, Mat_empty.
    destruct (load w binaryImage) as [p | ]; [rewrite He | ]; reflexivity.
  - apply mask_of_total.
  - intros A B stage rest w' e Hs. unfold bind. rewrite Hs. reflexivity.
  - intros w' e Hm. unfold main, bind. rewrite Hm. reflexivity.
  - intros Hfile.
    assert (Hthrow : exists w1,
              main_try w = (w1, inl (ImageProcessorException (MsgLoadFailed "hero.png")))
              /\ cerr w1 = cerr w /\ cout w1 = cout w ++ [LineMain BannerTitle]
              /\ forall l p, heap w !! l = Some p -> heap w1 !! l = Some p).
    { destruct (ImageProcessor_new_load_failed "hero.png"
                  (mkWorld (heap w) (files w) (cout w ++ [LineMain BannerTitle])
                     (cerr w) (fdivs w)) Hfile)
        as (w1 & Hc & He & Ho & _ & Hh).
      exists w1. split.
      - unfold main_try. unfold bind at 1. unfold print at 1.
        unfold bind at 1. rewrite Hc. reflexivity.
      - split; [exact He | ]. split; [exact Ho | exact Hh]. }
    destruct Hthrow as (w1 & Hm & Hc & Ho & Hh).
    exists (eprint (ImageProcessorException (MsgLoadFailed "hero.png")) w1).
    split; [unfold main, bind; rewrite Hm; reflexivity | ].
    cbn. rewrite Hc. repeat split; [exact Ho | exact Hh].
Qed.

(** C7. [filterLightBars] never writes to the image it was given: the
    rectangles and labels of the accepted contours are drawn, in order, on a
    buffer that did not exist before the call, and every buffer that existed
    (the original image among them) keeps its contents. At the end of the
    first five steps of [main] the image of the processor is the decoded
    file, the annotated image is another matrix, and the files are as they
    were. *)
Theorem original_image_untouched (this : ImageProcessor) (binaryImage visualResult0 : Mat)
    (w : World) (p : Pixels) (g : Gray) :
  load w (image this) = Some p ->
  load w binaryImage = Some (C1 g) ->
  total (C1 g) <> 0 ->
  (exists w' l,
     filterLightBars this binaryImage visualResult0 w = (w', inr (Some l, Some l))
     /\ (l ∉ dom (heap w))
     /\ heap w' !! l = Some (foldl annotate p (List.filter accepts (findContours g)))
     /\ load w' (image this) = Some p
     /\ (forall l' q, heap w !! l' = Some q -> heap w' !! l' = Some q)
     /\ files w' = files w)
  /\ (forall (w0 : World) (src : Color),
        files w0 !! "hero.png" = Some src ->
        total (C3 src) <> 0 ->
        total (C1 (refine_mask (mask_of src))) <> 0 ->
        returns main_try w0
          (fun w1 res =>
             load w1 (image (processor res)) = Some (C3 src)
             /\ image (processor res) <> visualResult res
             /\ load w1 (visualResult res)
                = Some (foldl annotate (C3 src)
                          (List.filter accepts (findContours (refine_mask (mask_of src)))))
             /\ files w1 = files w0
             /\ (forall l q, heap w0 !! l = Some q -> heap w1 !! l = Some q))).
Proof.
  intros Hp Hg Hne. split.
  - exists (after_filter p (findContours g) w), (fresh (dom (heap w))).
    split; [apply (filterLightBars_run this binaryImage visualResult0 w p g Hp Hg Hne) | ].
    split; [apply is_fresh | ].
    split; [cbn; apply lookup_insert_eq | ].
    split; [apply load_after_filter, Hp | ].
    split; [ | reflexivity].
    intros l' q Hl. apply (load_after_filter p q _ w (Some l')). exact Hl.
  - intros w0 src Hf Hsrc Hmask.
    apply (main_try_returns w0 src _ Hf Hsrc Hmask).
    intros w1 res _ Hvis _ Hheap _ _ Himg Hne' Hfiles. repeat split; assumption.
Qed.

(** C8. When no contour is accepted, [filterLightBars] does not throw, and
    the image it returns is a new buffer with the contents of the original
    image. *)
Theorem no_candidate_plain_copy (this : ImageProcessor) (binaryImage visualResult : Mat)
    (w : World) (p : Pixels) (g : Gray) :
  load w (image this) = Some p ->
  load w binaryImage = Some (C1 g) ->
  total (C1 g) <> 0 ->
  List.filter accepts (findContours g) = [] ->
  exists w' l,
    filterLightBars this binaryImage visualResult w = (w', inr (Some l, Some l))
    /\ (l ∉ dom (heap w))
    /\ heap w' !! l = Some p
    /\ load w' (image this) = Some p.
Proof.
  intros Hp Hg Hne Hnone.
  exists (after_filter p (findContours g) w), (fresh (dom (heap w))).
  split; [apply (filterLightBars_run this binaryImage visualResult w p g Hp Hg Hne) | ].
  split; [apply is_fresh | ].
  split; [ | apply load_after_filter, Hp].
  unfold after_filter. rewrite Hnone. cbn. apply lookup_insert_eq.
Qed.

(** C9. The default ranges are inclusive: red 1 is hue 0 to 10, red 2 is hue
    160 to 180, blue is hue 100 to 130, each with saturation and value 100
    to 255; a pixel is foreground in a sub-mask exactly when its three
    components lie within the bounds, and these are the three ranges the
    colour mask is built from. *)
Theorem default_color_ranges (q : Vec3b) (hsv_image : Color) (lo hi : Scalar) (i j : nat)
    (src : Color) :
  (in_bounds red_lower1 red_upper1 q = true
   <-> 0 <= c0 q <= 10 /\ 100 <= c1 q <= 255 /\ 100 <= c2 q <= 255)
  /\ (in_bounds red_lower2 red_upper2 q = true
      <-> 160 <= c0 q <= 180 /\ 100 <= c1 q <= 255 /\ 100 <= c2 q <= 255)
  /\ (in_bounds blue_lower blue_upper q = true
      <-> 100 <= c0 q <= 130 /\ 100 <= c1 q <= 255 /\ 100 <= c2 q <= 255)
  /\ pixel (inRange hsv_image lo hi) i j
     = (fun q => if in_bounds lo hi q then 255 else 0) <$> pixel hsv_image i j
  /\ color_mask src
     = bitwise_or (inRange (map (map bgr2hsv) src) red_lower1 red_upper1)
                  (inRange (map (map bgr2hsv) src) red_lower2 red_upper2)
       ≫= (fun red_mask =>
             bitwise_or red_mask (inRange (map (map bgr2hsv) src) blue_lower blue_upper)).
Proof.
  unfold in_bounds, red_lower1, red_upper1, red_lower2, red_upper2, blue_lower, blue_upper.
  cbn [v0 v1 v2]. rewrite !andb_true_iff, !Z.leb_le.
  split; [lia | ]. split; [lia | ]. split; [lia | ]. split.
  - apply inRange_pixel.
  - unfold color_mask. cbv zeta. destruct (bitwise_or _ _); reflexivity.
Qed.

(** C10. Every emitted light bar has a bounding rectangle at least 4 wide
    and 11 high, and the aspect ratio printed in its summary line is the
    double quotient of the height by the width of that rectangle. *)
Theorem candidates_are_large (this : ImageProcessor) (binaryImage : Mat) (w : World)
    (p : Pixels) (g : Gray) :
  load w (image this) = Some p ->
  load w binaryImage = Some (C1 g) ->
  let accepted := List.filter accepts (findContours g) in
  exists w' validLightBars visualResult,
    filter_contours this binaryImage w = (w', inr (validLightBars, visualResult))
    /\ validLightBars = map boundingRect accepted
    /\ Forall (fun r => 4 <= width r /\ 11 <= height r) validLightBars
    /\ cout w' = cout w ++ [LineFound (length (findContours g))] ++ summaries 1 accepted
                        ++ [LineFiltered (length accepted)]
    /\ forall (k : nat) (c : Contour),
         summary k c
         = LineValid k (contourArea c)
             (fdiv (of_int (height (boundingRect c))) (of_int (width (boundingRect c))))
             (rect_x (boundingRect c)) (rect_y (boundingRect c)).
Proof.
  intros Hp Hg accepted.
  exists (after_filter p (findContours g) w), (map boundingRect accepted),
         (Some (fresh (dom (heap w)))).
  split; [apply (filter_contours_run this binaryImage w p g Hp Hg) | ].
  split; [reflexivity | ]. split; [ | split; [reflexivity | reflexivity]].
  apply List.Forall_forall. intros r Hr. apply in_map_iff in Hr as (c & <- & Hc).
  apply filter_In in Hc as [_ Hc]. apply accepts_size, Hc.
Qed.

End Claims.

(** ** The claims on the executable instance *)

Section Instances.
Import Demo.
Local Open Scope Z_scope.

(** Boundary behaviour of the acceptance rule, by evaluation: areas 50, 51,
    4999 and 5000 on a 6 by 30 rectangle, and ratios 1.5, 1.6, 7.9 and 8.0
    on an area of 100. *)
Example area_50_rejected :
  isValidLightBar (of_int 50) (fdiv (of_int 30) (of_int 6)) (mkRect 0 0 6 30) = false.
Proof. vm_compute. reflexivity. Qed.

Example area_51_accepted :
  isValidLightBar (of_int 51) (fdiv (of_int 30) (of_int 6)) (mkRect 0 0 6 30) = true.
Proof. vm_compute. reflexivity. Qed.

Example area_4999_accepted :
  isValidLightBar (of_int 4999) (fdiv (of_int 30) (of_int 6)) (mkRect 0 0 6 30) = true.
Proof. vm_compute. reflexivity. Qed.

Example area_5000_rejected :
  isValidLightBar (of_int 5000) (fdiv (of_int 30) (of_int 6)) (mkRect 0 0 6 30) = false.
Proof. vm_compute. reflexivity. Qed.

Example ratio_1_5_rejected :
  isValidLightBar (of_int 100) (fdiv (of_int 30) (of_int 20)) (mkRect 0 0 20 30) = false.
Proof. vm_compute. reflexivity. Qed.

Example ratio_1_6_accepted :
  isValidLightBar (of_int 100) (fdiv (of_int 16) (of_int 10)) (mkRect 0 0 10 16) = true.
Proof. vm_compute. reflexivity. Qed.

Example ratio_7_9_accepted :
  isValidLightBar (of_int 100) (fdiv (of_int 79) (of_int 10)) (mkRect 0 0 10 79) = true.
Proof. vm_compute. reflexivity. Qed.

Example ratio_8_0_rejected :
  isValidLightBar (of_int 100) (fdiv (of_int 40) (of_int 5)) (mkRect 0 0 5 40) = false.
Proof. vm_compute. reflexivity. Qed.

(** A zero-width rectangle of height 20: the quotient is plus infinity. *)
Example ratio_by_zero_is_infinite :
  fdiv (of_int 20) (of_int 0) = S754_infinity false
  /\ isValidLightBar (of_int 100) (fdiv (of_int 20) (of_int 0)) (mkRect 0 0 0 20) = false.
Proof. split; vm_compute; reflexivity. Qed.

(** The run of [main] on the bar image: one contour, one light bar of area
    145 and ratio 5, labelled "A:145 R:5.00"; the exit status is 0. *)
Example main_on_bar_image :
  snd (main (fun _ => ret tt) world0) = 0
  /\ cout (fst (main (fun _ => ret tt) world0))
     = [LineMain BannerTitle; LineLoaded "hero.png"; LineInfoHeader;
        LineInfoPath "hero.png"; LineInfoSize 10 34; LineInfoChannels 3;
        LineInfoTotal 340; LineMain BannerPreprocess; LineMain OkGray;
        LineMain OkMeanBlur; LineMain OkGaussian; LineMain BannerDetect;
        LineExtracted; LineMain BannerFilter; LineFound 1;
        LineValid 1 (literal 145 0) (of_int 5) 2 2; LineFiltered 1]
  /\ info_text (contourArea bar_contour) (aspectRatio_of bar_contour) = "A:145 R:5.00".
Proof.
  split; [vm_compute; reflexivity | ].
  split; vm_compute; reflexivity.
Qed.

(** A uniform image outside the colour ranges gives an all-background mask
    and no contour. *)
Example main_on_grey_image :
  snd (main (fun _ => ret tt) (world_of grey_image)) = 0
  /\ mask_of grey_image = replicate 40 (replicate 40 0)
  /\ drop 14 (cout (fst (main (fun _ => ret tt) (world_of grey_image))))
     = [LineFound 0; LineFiltered 0].
Proof.
  split; [vm_compute; reflexivity | ].
  split; vm_compute; reflexivity.
Qed.

(** A near-square blob (20 wide, 22 high) is found and rejected. *)
Example main_on_blob_image :
  drop 14 (cout (fst (main (fun _ => ret tt) (world_of blob_image))))
  = [LineFound 1; LineFiltered 0].
Proof. vm_compute. reflexivity. Qed.

Lemma classifier_accepts_iff_witness :
  let slab := corners (mkRect 12 10 12 5) in
  valid (contourArea bar_contour) = true
  /\ in_int (width (boundingRect bar_contour))
  /\ in_int (height (boundingRect bar_contour))
  /\ heap world1 !! 0%nat = Some (C3 bar_image)
  /\ accepts bar_contour = true
  /\ filter_step (Some 0%nat) bar_contour [] world1
     = (mkWorld (<[0%nat := annotate (C3 bar_image) bar_contour]> (heap world1))
          (files world1)
          (cout world1 ++ [LineValid 1 (contourArea bar_contour)
                             (fdiv (of_int 30) (of_int 6)) 2 2])
          (cerr world1) (fdivs world1 ++ [(of_int 30, of_int 6)]),
        inr [mkRect 2 2 6 30])
  /\ accepts slab = false
  /\ filter_step (Some 0%nat) slab [mkRect 2 2 6 30] world1
     = (mkWorld (heap world1) (files world1) (cout world1) (cerr world1)
          (fdivs world1 ++ [(of_int 5, of_int 12)]),
        inr [mkRect 2 2 6 30]).
Proof.
  intros slab.
  assert (Hv : valid (contourArea bar_contour) = true) by reflexivity.
  assert (Hw : in_int (width (boundingRect bar_contour)))
    by (unfold in_int, INT_MIN, INT_MAX; cbn; lia).
  assert (Hh : in_int (height (boundingRect bar_contour)))
    by (unfold in_int, INT_MIN, INT_MAX; cbn; lia).
  assert (Hl : heap world1 !! 0%nat = Some (C3 bar_image)) by reflexivity.
  assert (Ha : accepts bar_contour = true) by (vm_compute; reflexivity).
  assert (Hv' : valid (contourArea slab) = true) by reflexivity.
  assert (Hw' : in_int (width (boundingRect slab)))
    by (unfold in_int, INT_MIN, INT_MAX; cbn; lia).
  assert (Hh' : in_int (height (boundingRect slab)))
    by (unfold in_int, INT_MIN, INT_MAX; cbn; lia).
  assert (Hs : accepts slab = false) by (vm_compute; reflexivity).
  split; [exact Hv | ]. split; [exact Hw | ]. split; [exact Hh | ].
  split; [exact Hl | ]. split; [exact Ha | ]. split; [ | split; [exact Hs | ]].
  - destruct (classifier_accepts_iff bar_contour 0%nat (C3 bar_image) [] world1
                Hv Hw Hh Hl) as (Hiff & _ & Hin & _).
    exact (Hin (proj1 Hiff Ha)).
  - destruct (classifier_accepts_iff slab 0%nat (C3 bar_image) [mkRect 2 2 6 30] world1
                Hv' Hw' Hh' Hl) as (Hiff & _ & _ & Hout).
    apply Hout. intros Hin. apply Hiff in Hin. rewrite Hs in Hin. discriminate Hin.
Defined.

(** The claim C2 as the specification states it fails on the empty contour,
    whose bounding box is 0 by 0: the step evaluates 0.0 / 0.0. *)
Lemma zero_width_division_not_guarded :
  width (boundingRect ([] : Contour)) = 0
  /\ ~ rejected_before_division ([] : Contour).
Proof.
  split; [reflexivity | ]. intros Hg.
  destruct (Hg None [] world0) as (w' & Hstep & Hd).
  vm_compute in Hstep. injection Hstep as <-. discriminate Hd.
Qed.

Lemma zero_width_rejected_witness :
  width (boundingRect ([] : Contour)) = 0
  /\ filter_step None ([] : Contour) [] world0
     = (mkWorld (heap world0) (files world0) (cout world0) (cerr world0)
          (fdivs world0 ++ [(of_int (height (boundingRect ([] : Contour))), of_int 0)]),
        inr [])
  /\ is_finite (aspectRatio_of ([] : Contour)) = false
  /\ accepts ([] : Contour) = false.
Proof.
  split; [reflexivity | ].
  exact (zero_width_rejected ([] : Contour) None [] world0 eq_refl).
Defined.

Lemma bar_mask_not_empty : total (C1 bar_mask) <> 0.
Proof. intros E. vm_compute in E. discriminate E. Defined.

Lemma trio_mask_not_empty : total (C1 trio_mask) <> 0.
Proof. intros E. vm_compute in E. discriminate E. Defined.

Lemma filter_preserves_order_witness :
  load world_trio (image processor1) = Some (C3 trio_image)
  /\ load world_trio (Some 1%nat) = Some (C1 trio_mask)
  /\ total (C1 trio_mask) <> 0
  /\ map boundingRect (findContours trio_mask)
     = [mkRect 2 2 6 30; mkRect 12 10 12 5; mkRect 28 5 5 20]
  /\ map accepts (findContours trio_mask) = [true; false; true]
  /\ exists w' visualResult,
       filter_contours processor1 (Some 1%nat) world_trio
       = (w', inr ([mkRect 2 2 6 30; mkRect 28 5 5 20], visualResult))
       /\ filterLightBars processor1 (Some 1%nat) None world_trio
         = (w', inr (visualResult, visualResult))
       /\ sublist (List.filter accepts (findContours trio_mask)) (findContours trio_mask)
       /\ cout w' = cout world_trio ++ [LineFound 3]
                      ++ summaries 1 (List.filter accepts (findContours trio_mask))
                      ++ [LineFiltered 2].
Proof.
  assert (Hr : map boundingRect (findContours trio_mask)
               = [mkRect 2 2 6 30; mkRect 12 10 12 5; mkRect 28 5 5 20])
    by (vm_compute; reflexivity).
  assert (Ha : map accepts (findContours trio_mask) = [true; false; true])
    by (vm_compute; reflexivity).
  assert (Hk : map boundingRect (List.filter accepts (findContours trio_mask))
               = [mkRect 2 2 6 30; mkRect 28 5 5 20])
    by (vm_compute; reflexivity).
  assert (Hn : length (findContours trio_mask) = 3%nat) by (vm_compute; reflexivity).
  assert (Hm : length (List.filter accepts (findContours trio_mask)) = 2%nat)
    by (vm_compute; reflexivity).
  split; [reflexivity | ]. split; [reflexivity | ]. split; [exact trio_mask_not_empty | ].
  split; [exact Hr | ]. split; [exact Ha | ].
  destruct (filter_preserves_order processor1 (Some 1%nat) None world_trio (C3 trio_image)
              trio_mask eq_refl eq_refl trio_mask_not_empty)
    as (w' & vis & Hc & Hf & Hs & Ho).
  exists w', vis. rewrite Hk in Hc. rewrite Hn, Hm in Ho.
  split; [exact Hc | ]. split; [exact Hf | ]. split; [exact Hs | exact Ho].
Defined.

Lemma bar_image_not_empty : total (C3 bar_image) <> 0.
Proof. intros E. vm_compute in E. discriminate E. Defined.

Lemma mask_refined_once_witness :
  files world0 !! "hero.png" = Some bar_image
  /\ total (C3 bar_image) <> 0
  /\ total (C1 (refine_mask (mask_of bar_image))) <> 0
  /\ returns main_try world0
       (fun w' res =>
          load w' (lightBarMask res) = Some (C1 (refine_mask (mask_of bar_image)))
          /\ fdivs w' = fdivs world0
               ++ map ratio_operands (findContours (refine_mask (mask_of bar_image)))).
Proof.
  split; [reflexivity | ]. split; [exact bar_image_not_empty | ].
  split; [exact bar_mask_not_empty | ].
  exact (proj2 (proj2 (mask_refined_once world0 bar_image eq_refl
                         bar_image_not_empty bar_mask_not_empty))).
Defined.

Lemma empty_input_aborts_witness :
  empty_in world_empty (Some 0%nat)
  /\ empty_in world_empty None
  /\ extractLightBars (mkImageProcessor (Some 0%nat) "hero.png") world_empty
     = (world_empty, inl (ImageProcessorException MsgEmptyExtract))
  /\ filterLightBars (mkImageProcessor (Some 0%nat) "hero.png") None None world_empty
     = (world_empty, inl (ImageProcessorException MsgEmptyBinary))
  /\ exists w', main (fun _ => ret tt) world_empty = (w', -1).
Proof.
  pose proof (empty_input_aborts (mkImageProcessor (Some 0%nat) "hero.png") None None
                (fun _ => ret tt) world_empty) as (He & Hf & _ & _ & _ & Hm).
  assert (E0 : empty_in world_empty (Some 0%nat)) by reflexivity.
  assert (E1 : empty_in world_empty None) by exact I.
  split; [exact E0 | ]. split; [exact E1 | ].
  split; [exact (He E0) | ]. split; [exact (Hf E1) | ].
  destruct (Hm I) as (w' & Hw' & _). exists w'. exact Hw'.
Defined.

Lemma original_image_untouched_witness :
  load world1 (image processor1) = Some (C3 bar_image)
  /\ load world1 (Some 1%nat) = Some (C1 bar_mask)
  /\ total (C1 bar_mask) <> 0
  /\ exists w' l,
       filterLightBars processor1 (Some 1%nat) None world1 = (w', inr (Some l, Some l))
       /\ (l ∉ dom (heap world1))
       /\ heap w' !! l
          = Some (foldl annotate (C3 bar_image) (List.filter accepts (findContours bar_mask)))
       /\ load w' (image processor1) = Some (C3 bar_image)
       /\ (forall l' q, heap world1 !! l' = Some q -> heap w' !! l' = Some q)
       /\ files w' = files world1.
Proof.
  split; [reflexivity | ]. split; [reflexivity | ]. split; [exact bar_mask_not_empty | ].
  exact (proj1 (original_image_untouched processor1 (Some 1%nat) None world1 (C3 bar_image)
                  bar_mask eq_refl eq_refl bar_mask_not_empty)).
Defined.

Lemma dark_mask_not_empty : total (C1 (replicate 4 (replicate 4 0))) <> 0.
Proof. intros E. vm_compute in E. discriminate E. Defined.

Lemma no_candidate_plain_copy_witness :
  load world_dark (image processor1) = Some (C3 (replicate 4 (replicate 4 black)))
  /\ load world_dark (Some 1%nat) = Some (C1 (replicate 4 (replicate 4 0)))
  /\ total (C1 (replicate 4 (replicate 4 0))) <> 0
  /\ List.filter accepts (findContours (replicate 4 (replicate 4 0))) = []
  /\ exists w' l,
       filterLightBars processor1 (Some 1%nat) None world_dark = (w', inr (Some l, Some l))
       /\ (l ∉ dom (heap world_dark))
       /\ heap w' !! l = Some (C3 (replicate 4 (replicate 4 black)))
       /\ load w' (image processor1) = Some (C3 (replicate 4 (replicate 4 black))).
Proof.
  split; [reflexivity | ]. split; [reflexivity | ]. split; [exact dark_mask_not_empty | ].
  split; [reflexivity | ].
  exact (no_candidate_plain_copy processor1 (Some 1%nat) None world_dark
           (C3 (replicate 4 (replicate 4 black))) (replicate 4 (replicate 4 0))
           eq_refl eq_refl dark_mask_not_empty eq_refl).
Defined.

Lemma candidates_are_large_witness :
  load world1 (image processor1) = Some (C3 bar_image)
  /\ load world1 (Some 1%nat) = Some (C1 bar_mask)
  /\ exists w' validLightBars visualResult,
       filter_contours processor1 (Some 1%nat) world1
       = (w', inr (validLightBars, visualResult))
       /\ validLightBars = [mkRect 2 2 6 30]
       /\ Forall (fun r => 4 <= width r /\ 11 <= height r) validLightBars.
Proof.
  split; [reflexivity | ]. split; [reflexivity | ].
  destruct (candidates_are_large processor1 (Some 1%nat) world1 (C3 bar_image) bar_mask
              eq_refl eq_refl) as (w' & v & vis & Hrun & Hv & Hall & _).
  exists w', v, vis. split; [exact Hrun | ]. split; [ | exact Hall].
  rewrite Hv. reflexivity.
Defined.

End Instances.

(** ** binary64: exact conversions, truncation, and the error of a ratio *)

Section DoubleMore.
Local Open Scope Z_scope.

Lemma binary_round_aux_opp (m e : Z) (l : location) :
  binary_round_aux prec emax true m e l = SFopp (binary_round_aux prec emax false m e l).
Proof.
  rewrite !binary_round_aux_unfold. unfold finish.
  destruct (shr_fexp prec emax _ _ loc_Exact) as [mrs e'].
  destruct (shr_m mrs); try reflexivity.
  destruct (e' <=? emax - prec); reflexivity.
Qed.

Lemma of_int_neg (p : positive) : of_int (Z.neg p) = SFopp (of_int (Z.pos p)).
Proof.
  unfold of_int, binary_normalize, binary_round.
  destruct (shl_align p 0 _) as [mz ez]. apply binary_round_aux_opp.
Qed.

Lemma value_opp (x : double) : (value (SFopp x) == - value x)%Q.
Proof.
  destruct x as [s | s | | s m e]; cbn [SFopp value]; try reflexivity.
  destruct s; cbn [negb cond_Zopp].
  - change (Z.pos m) with (- Z.neg m). rewrite inject_Z_opp.
    change (- Z.neg m) with (Z.pos m). change (- Z.pos m) with (Z.neg m). ring.
  - change (Z.neg m) with (- Z.pos m). rewrite inject_Z_opp. ring.
Qed.

Lemma valid_normal (s : bool) (m : positive) (e : Z) :
  2 ^ 52 <= Z.pos m < 2 ^ 53 -> -1074 <= e <= 971 ->
  valid (S754_finite s m e) = true.
Proof.
  intros Hm He. unfold valid, valid_binary, bounded, canonical_mantissa.
  rewrite (digits2_pos_unique m 53) by (change (53 - 1) with 52; exact Hm).
  apply andb_true_iff. split.
  - apply Z.eqb_eq. unfold fexp, emin, prec, emax. lia.
  - apply Z.leb_le. unfold prec, emax. lia.
Qed.

Lemma value_nonneg_exp (s : bool) (m : positive) (e : Z) :
  0 <= e ->
  (value (S754_finite s m e) == inject_Z (cond_Zopp s (Z.pos m) * 2 ^ e))%Q.
Proof.
  intros He. cbn [value]. rewrite inject_Z_mult, Zpower_Qpower by exact He. reflexivity.
Qed.

Lemma value_neg_exp (s : bool) (m : positive) (e : Z) :
  e < 0 ->
  (value (S754_finite s m e)
   == inject_Z (cond_Zopp s (Z.pos m)) / inject_Z (2 ^ (- e)))%Q.
Proof.
  intros He. cbn [value]. unfold Qdiv.
  rewrite Zpower_Qpower by lia. rewrite <- Qpower_opp.
  replace (- - e) with e by lia. reflexivity.
Qed.

Lemma of_int_pos_value (z : Z) :
  0 < z < 2 ^ 53 ->
  valid (of_int z) = true /\ is_finite (of_int z) = true
  /\ (value (of_int z) == inject_Z z)%Q.
Proof.
  intros Hz. destruct (of_int_pos z Hz) as (m & d & E & Hd & Hb & Hm & Hr).
  rewrite E. split; [apply valid_normal; [exact Hr | lia] | ]. split; [reflexivity | ].
  cbn [value cond_Zopp]. rewrite Hm, inject_Z_mult, Zpower_Qpower by lia.
  rewrite <- Qmult_assoc, <- Qpower_plus by discriminate.
  replace (53 - d + (d - 53)) with 0 by lia. cbn. ring.
Qed.

(** The conversions [(double)height] and [(double)width] are exact: every
    [int] is a finite double of exactly its value. *)
Theorem int_conversion_exact (z : Z) :
  in_int z ->
  valid (of_int z) = true /\ is_finite (of_int z) = true
  /\ (value (of_int z) == inject_Z z)%Q.
Proof.
  unfold in_int, INT_MIN, INT_MAX. intros Hz. destruct z as [ | p | p].
  - repeat split.
  - apply of_int_pos_value. lia.
  - destruct (of_int_pos_value (Z.pos p)) as (V & F & E); [lia | ].
    rewrite of_int_neg. split; [ | split].
    + destruct (of_int (Z.pos p)); try discriminate; exact V.
    + destruct (of_int (Z.pos p)); try discriminate; reflexivity.
    + rewrite value_opp, E. change (Z.neg p) with (- Z.pos p).
      rewrite inject_Z_opp. reflexivity.
Qed.

Lemma ratio_lt_frac (a b c d : Z) :
  0 < b -> 0 < d ->
  (inject_Z a / inject_Z b < inject_Z c / inject_Z d)%Q <-> a * d < c * b.
Proof.
  intros Hb Hd. destruct b as [ | pb | pb]; try lia. destruct d as [ | pd | pd]; try lia.
  unfold Qdiv, Qinv, Qmult, Qlt, inject_Z. cbn [Qnum Qden]. lia.
Qed.

(** For positive [int] height and width the aspect ratio computed at line
    201 is a finite normal double within one unit in the last place of the
    exact quotient: its value [v] satisfies
    [v * (1 - 2^-52) < height / width < v * (1 + 2^-52)]. *)
Theorem ratio_within_one_ulp (h w : Z) :
  0 < h -> 0 < w -> in_int h -> in_int w ->
  let r := fdiv (of_int h) (of_int w) in
  valid r = true /\ is_finite r = true
  /\ (value r * (1 - (1 # 4503599627370496)) < inject_Z h / inject_Z w)%Q
  /\ (inject_Z h / inject_Z w < value r * (1 + (1 # 4503599627370496)))%Q.
Proof.
  intros Hh Hw Ih Iw r. unfold in_int, INT_MIN, INT_MAX in Ih, Iw.
  destruct (fdiv_of_int h w) as (m & k & E & Hm & Hk & [B1 B2]); [lia | lia | ].
  subst r. rewrite E.
  split; [apply valid_normal; [exact Hm | lia] | ]. split; [reflexivity | ].
  assert (HT : 0 < 2 ^ k) by (apply Z.pow_pos_nonneg; lia).
  assert (HV : (value (S754_finite false m (- k)) == inject_Z (Z.pos m) / inject_Z (2 ^ k))%Q).
  { rewrite value_neg_exp by lia. replace (- - k) with k by lia. reflexivity. }
  assert (HQ : ~ (inject_Z (2 ^ k) == 0)%Q).
  { intros Hc. unfold Qeq, inject_Z in Hc. cbn [Qnum Qden] in Hc. lia. }
  set (P := 4503599627370496) in *.
  assert (L : (value (S754_finite false m (- k)) * (1 - (1 # 4503599627370496))
               == inject_Z (Z.pos m * (P - 1)) / inject_Z (2 ^ k * P))%Q).
  { rewrite HV, !inject_Z_mult. unfold Z.sub. rewrite inject_Z_plus.
    change (inject_Z (- (1))) with (- (1))%Q. change (inject_Z P) with (4503599627370496 # 1)%Q.
    change (inject_Z 1) with 1%Q.
    field. exact HQ. }
  assert (U : (value (S754_finite false m (- k)) * (1 + (1 # 4503599627370496))
               == inject_Z (Z.pos m * (P + 1)) / inject_Z (2 ^ k * P))%Q).
  { rewrite HV, !inject_Z_mult, inject_Z_plus.
    change (inject_Z P) with (4503599627370496 # 1)%Q. change (inject_Z 1) with 1%Q.
    field. exact HQ. }
  rewrite L, U. clear L U HV HQ.
  rewrite !ratio_lt_frac by (subst P; lia).
  change (2 ^ 52) with P in Hm. change (2 ^ 53) with (2 * P) in Hm.
  assert (0 < P) by (subst P; lia). clearbody P. split; nia.
Qed.

Lemma to_int_in_window (a : double) :
  valid a = true ->
  fgt a (of_int 50) = true -> flt a (of_int 5000) = true ->
  to_int a = Qfloor (value a) /\ 50 <= to_int a <= 4999.
Proof.
  intros Va H50 H5000.
  assert (Hfin : is_finite a = true /\ (50 < value a)%Q /\ (value a < 5000)%Q).
  { unfold fgt in H50.
    destruct (is_finite a) eqn:Fa.
    - rewrite (flt_Q (of_int 50) a) in H50 by (assumption || reflexivity).
      rewrite (flt_Q a (of_int 5000)) in H5000 by (assumption || reflexivity).
      assert (E1 : (value (of_int 50) == 50)%Q) by (vm_compute; reflexivity).
      assert (E2 : (value (of_int 5000) == 5000)%Q) by (vm_compute; reflexivity).
      rewrite E1 in H50. rewrite E2 in H5000. auto.
    - exfalso. destruct a as [s | [ | ] | | s m e]; try discriminate Fa;
        vm_compute in H50, H5000; discriminate. }
  destruct Hfin as (Fa & Q1 & Q2).
  assert (Hfloor : exists mag, (inject_Z mag <= value a)%Q /\ (value a < inject_Z (mag + 1))%Q
                               /\ (50 <= mag <= 4999 -> to_int a = mag)).
  { destruct a as [s | s | | s m e]; try discriminate Fa.
    - exfalso. cbn in Q1. apply (Qlt_irrefl 0). eapply Qlt_trans; [ | exact Q1]. reflexivity.
    - destruct s.
      + exfalso. cbn [value cond_Zopp] in Q1.
        assert (Hneg : (inject_Z (Z.neg m) * 2 ^ e < 0 * 2 ^ e)%Q)
          by (apply Qmult_lt_r; [apply Qpower_0_lt; reflexivity | reflexivity]).
        rewrite Qmult_0_l in Hneg.
        apply (Qlt_irrefl 0). eapply Qlt_trans; [ | eapply Qlt_trans; [exact Q1 | exact Hneg]].
        reflexivity.
      + clear Q1 Q2. destruct (Z_lt_le_dec e 0) as [He | He].
        * assert (HT : 0 < 2 ^ (- e)) by (apply Z.pow_pos_nonneg; lia).
          exists (Z.pos m / 2 ^ (- e)).
          rewrite (value_neg_exp false m e He). cbn [cond_Zopp].
          assert (HTQ : (0 < inject_Z (2 ^ (- e)))%Q) by (rewrite <- (Zlt_Qlt 0); exact HT).
          split; [ | split].
          -- apply Qle_shift_div_l; [exact HTQ | ].
             rewrite <- inject_Z_mult, <- Zle_Qle.
             rewrite Z.mul_comm. apply Z.mul_div_le. exact HT.
          -- apply Qlt_shift_div_r; [exact HTQ | ].
             rewrite <- inject_Z_mult, <- Zlt_Qlt.
             pose proof (Z.mul_succ_div_gt (Z.pos m) (2 ^ (- e)) HT). lia.
          -- intros Hr. unfold to_int. cbn [cond_Zopp].
             replace (0 <=? e) with false by (symmetry; apply Z.leb_gt; exact He).
             replace ((INT_MIN <=? Z.pos m / 2 ^ (- e)) && (Z.pos m / 2 ^ (- e) <=? INT_MAX))
               with true; [reflexivity | ].
             symmetry. apply andb_true_iff. unfold INT_MIN, INT_MAX.
             split; apply Z.leb_le; lia.
        * exists (Z.pos m * 2 ^ e).
          rewrite (value_nonneg_exp false m e He). cbn [cond_Zopp].
          split; [apply Qle_refl | split].
          -- rewrite <- Zlt_Qlt. lia.
          -- intros Hr. unfold to_int. cbn [cond_Zopp].
             replace (0 <=? e) with true by (symmetry; apply Z.leb_le; exact He).
             replace ((INT_MIN <=? Z.pos m * 2 ^ e) && (Z.pos m * 2 ^ e <=? INT_MAX))
               with true; [reflexivity | ].
             symmetry. apply andb_true_iff. unfold INT_MIN, INT_MAX.
             split; apply Z.leb_le; lia. }
  destruct Hfloor as (mag & F1 & F2 & Hto).
  assert (Hlo : 50 <= mag).
  { assert (Hq : (inject_Z 50 < inject_Z (mag + 1))%Q) by (eapply Qlt_trans; eassumption).
    rewrite <- Zlt_Qlt in Hq. clear - Hq. lia. }
  assert (Hhi : mag <= 4999).
  { assert (Hq : (inject_Z mag < inject_Z 5000)%Q) by (eapply Qle_lt_trans; eassumption).
    rewrite <- Zlt_Qlt in Hq. clear - Hq. lia. }
  assert (Hfl : Qfloor (value a) = mag).
  { apply Z.le_antisymm.
    - pose proof (Qfloor_le (value a)) as G1.
      assert (Hq : (inject_Z (Qfloor (value a)) < inject_Z (mag + 1))%Q)
        by (eapply Qle_lt_trans; eassumption).
      rewrite <- Zlt_Qlt in Hq. clear - Hq. lia.
    - rewrite <- (Qfloor_Z mag). apply Qfloor_resp_le. exact F1. }
  rewrite Hfl, (Hto (conj Hlo Hhi)). clear - Hlo Hhi. lia.
Qed.

End DoubleMore.

(** ** Further properties of the methods *)

Section Preserving.

Lemma keeps_buffers_refl (w : World) : keeps_buffers w w.
Proof. split; auto. Qed.

Lemma keeps_buffers_trans (w1 w2 w3 : World) :
  keeps_buffers w1 w2 -> keeps_buffers w2 w3 -> keeps_buffers w1 w3.
Proof.
  intros [H1 F1] [H2 F2]. split; [ | congruence].
  intros l p Hl. apply H2, H1, Hl.
Qed.

Lemma preserving_ret {A : Type} (a : A) : preserving (ret a).
Proof. intros w w' r E. injection E as <- _. apply keeps_buffers_refl. Qed.

Lemma preserving_throw {A : Type} (e : Exn) : preserving (throw (A := A) e).
Proof. intros w w' r E. injection E as <- _. apply keeps_buffers_refl. Qed.

Lemma preserving_bind {A B : Type} (c : M A) (k : A -> M B) :
  preserving c -> (forall a, preserving (k a)) -> preserving (bind c k).
Proof.
  intros Hc Hk w w' r E. unfold bind in E.
  destruct (c w) as [w1 [e | a]] eqn:Ec.
  - injection E as <- _. apply (Hc _ _ _ Ec).
  - eapply keeps_buffers_trans; [apply (Hc _ _ _ Ec) | apply (Hk a _ _ _ E)].
Qed.

Lemma preserving_try_catch_cv {A : Type} (body handler : M A) :
  preserving body -> preserving handler -> preserving (try_catch_cv body handler).
Proof.
  intros Hb Hh w w' r Hc. unfold try_catch_cv in Hc.
  destruct (body w) as [w1 [[m | ] | a]] eqn:E.
  - injection Hc as <- <-. apply (Hb _ _ _ E).
  - eapply keeps_buffers_trans; [apply (Hb _ _ _ E) | apply (Hh _ _ _ Hc)].
  - injection Hc as <- <-. apply (Hb _ _ _ E).
Qed.

Lemma preserving_pure {A : Type} (f : World -> A) : preserving (fun w => (w, inr (f w))).
Proof. intros w w' r E. injection E as <- _. apply keeps_buffers_refl. Qed.

Lemma preserving_print (l : Line) : preserving (print l).
Proof. intros w w' r E. injection E as <- _. split; auto. Qed.

Lemma preserving_alloc (p : Pixels) : preserving (alloc p).
Proof.
  intros w w' r E. injection E as <- _. split; [ | reflexivity].
  intros l q Hl. cbn. rewrite lookup_insert_ne; [exact Hl | ].
  intros E. apply (is_fresh (dom (heap w))). rewrite E. eapply elem_of_dom_2, Hl.
Qed.

Lemma preserving_Mat_empty (m : Mat) : preserving (Mat_empty m).
Proof. apply preserving_pure. Qed.

Lemma preserving_read_color (m : Mat) : preserving (read_color m).
Proof.
  intros w w' r E. unfold read_color in E.
  destruct (load w m) as [[g | g] | ]; injection E as <- _; apply keeps_buffers_refl.
Qed.

Lemma preserving_read_gray (m : Mat) : preserving (read_gray m).
Proof.
  intros w w' r E. unfold read_gray in E.
  destruct (load w m) as [[g | g] | ]; injection E as <- _; apply keeps_buffers_refl.
Qed.

Lemma preserving_Mat_clone (m : Mat) : preserving (Mat_clone m).
Proof.
  intros w w' r E. unfold Mat_clone in E. destruct (load w m) as [p | ].
  - apply (preserving_alloc p _ _ _ E).
  - injection E as <- _. apply keeps_buffers_refl.
Qed.

Lemma preserving_cv_try {A : Type} (o : option A) : preserving (cv_try o).
Proof. destruct o; [apply preserving_ret | apply preserving_throw]. Qed.

Lemma preserving_imread (path : string) : preserving (imread path).
Proof.
  intros w w' r E. unfold imread in E. destruct (files w !! path) as [g | ].
  - apply (preserving_alloc _ _ _ _ E).
  - injection E as <- _. apply keeps_buffers_refl.
Qed.

End Preserving.

Section TouchesOnly.
Context `{OpenCV}.

Lemma touches_only_ret {A : Type} (m : Mat) (a : A) : touches_only m (ret a).
Proof. intros w w' r E. injection E as <- _. auto. Qed.

Lemma touches_only_bind {A B : Type} (m : Mat) (c : M A) (k : A -> M B) :
  touches_only m c -> (forall a, touches_only m (k a)) -> touches_only m (bind c k).
Proof.
  intros Hc Hk w w' r E. unfold bind in E.
  destruct (c w) as [w1 [e | a]] eqn:Ec.
  - injection E as <- _. apply (Hc _ _ _ Ec).
  - destruct (Hc _ _ _ Ec) as [F1 H1]. destruct (Hk a _ _ _ E) as [F2 H2].
    split; [congruence | ]. intros l Hl. rewrite (H2 l Hl). apply (H1 l Hl).
Qed.

Lemma touches_only_print (m : Mat) (l : Line) : touches_only m (print l).
Proof. intros w w' r E. injection E as <- _. auto. Qed.

Lemma touches_only_divide (m : Mat) (x y : double) : touches_only m (divide x y).
Proof. intros w w' r E. injection E as <- _. auto. Qed.

Lemma touches_only_read_gray (m m' : Mat) : touches_only m (read_gray m').
Proof.
  intros w w' r E. unfold read_gray in E.
  destruct (load w m') as [[g | g] | ]; injection E as <- _; auto.
Qed.

Lemma touches_only_draw (m : Mat) (f : Pixels -> Pixels) : touches_only m (draw m f).
Proof.
  intros w w' r E. unfold draw in E. destruct m as [l | ].
  - destruct (heap w !! l) as [p | ]; injection E as <- _; [ | auto].
    split; [reflexivity | ]. intros l' Hl'. cbn.
    apply lookup_insert_ne. intros ->. apply Hl'. reflexivity.
  - injection E as <- _. auto.
Qed.

Lemma touches_only_filter_step (m : Mat) (c : Contour) (acc : list Rect) :
  touches_only m (filter_step m c acc).
Proof.
  unfold filter_step. apply touches_only_bind; [apply touches_only_divide | ].
  intros ratio. destruct (isValidLightBar _ _ _); [ | apply touches_only_ret].
  apply touches_only_bind; [apply touches_only_draw | intros _].
  apply touches_only_bind; [apply touches_only_draw | intros _].
  apply touches_only_bind; [apply touches_only_print | intros _].
  apply touches_only_ret.
Qed.

Lemma touches_only_for_each (m : Mat) (cs : list Contour) :
  forall acc, touches_only m (for_each (filter_step m) cs acc).
Proof.
  induction cs as [ | c cs IH]; intros acc; cbn [for_each].
  - apply touches_only_ret.
  - apply touches_only_bind; [apply touches_only_filter_step | intros acc'; apply IH].
Qed.

Lemma Mat_clone_fresh (m : Mat) (w w' : World) (r : Exn + Mat) :
  Mat_clone m w = (w', r) ->
  keeps_buffers w w'
  /\ exists v, r = inr v /\ forall l, v = Some l -> l ∉ dom (heap w).
Proof.
  intros E. split; [apply (preserving_Mat_clone m _ _ _ E) | ].
  unfold Mat_clone in E. destruct (load w m) as [p | ].
  - injection E as <- <-. eexists. split; [reflexivity | ].
    intros l [= <-]. apply is_fresh.
  - injection E as <- <-. exists None. split; [reflexivity | discriminate].
Qed.

Lemma filter_contours_preserving (this : ImageProcessor) (binaryImage : Mat) :
  preserving (filter_contours this binaryImage).
Proof.
  intros w w' r E. unfold filter_contours in E. unfold bind at 1 in E.
  destruct (Mat_clone (image this) w) as [wa ra] eqn:Ec.
  destruct (Mat_clone_fresh _ _ _ _ Ec) as ([Hk Fk] & v & -> & Hv).
  assert (Ht : touches_only v
            (let* src := read_gray binaryImage in
             print (LineFound (length (findContours src))) >>>
             let* validLightBars := for_each (filter_step v) (findContours src) [] in
             print (LineFiltered (length validLightBars)) >>>
             ret (validLightBars, v))%prog).
  { apply touches_only_bind; [apply touches_only_read_gray | intros src].
    apply touches_only_bind; [apply touches_only_print | intros _].
    apply touches_only_bind; [apply touches_only_for_each | intros acc].
    apply touches_only_bind; [apply touches_only_print | intros _].
    apply touches_only_ret. }
  destruct (Ht _ _ _ E) as [F2 H2]. split; [ | congruence].
  intros l p Hl. rewrite H2; [apply Hk, Hl | ].
  intros Ev. apply (Hv l Ev). eapply elem_of_dom_2, Hl.
Qed.

End TouchesOnly.

Section MethodProperties.
Context `{OpenCV}.
Local Open Scope Z_scope.

Ltac chase_load :=
  repeat first [eassumption | eapply frame_load; [eassumption | ]].

Ltac preserving_step :=
  first [ apply preserving_ret | apply preserving_throw | apply preserving_print
        | apply preserving_alloc | apply preserving_Mat_empty
        | apply preserving_read_color | apply preserving_Mat_clone
        | apply preserving_cv_try | apply preserving_imread
        | apply preserving_bind
        | match goal with |- preserving (if ?b then _ else _) => destruct b end
        | intros ? ].

Lemma preserving_getImageSize (this : ImageProcessor) : preserving (getImageSize this).
Proof. unfold getImageSize, Mat_size. repeat preserving_step; try apply preserving_pure. Qed.

Lemma preserving_getChannels (this : ImageProcessor) : preserving (getChannels this).
Proof. unfold getChannels, Mat_channels. repeat preserving_step; try apply preserving_pure. Qed.

Lemma preserving_convertToGray (this : ImageProcessor) : preserving (convertToGray this).
Proof. unfold convertToGray. repeat preserving_step. Qed.

Lemma preserving_applyMeanBlur (this : ImageProcessor) (k : Z) :
  preserving (applyMeanBlur this k).
Proof. unfold applyMeanBlur. repeat preserving_step. Qed.

Lemma preserving_applyGaussianBlur (this : ImageProcessor) (k : Z) (s : double) :
  preserving (applyGaussianBlur this k s).
Proof. unfold applyGaussianBlur. repeat preserving_step. Qed.

Lemma preserving_extractLightBars (this : ImageProcessor) : preserving (extractLightBars this).
Proof. unfold extractLightBars. repeat preserving_step. Qed.

Lemma preserving_filterLightBars (this : ImageProcessor) (binaryImage visualResult0 : Mat) :
  preserving (filterLightBars this binaryImage visualResult0).
Proof.
  unfold filterLightBars. apply preserving_bind; [apply preserving_Mat_empty | ].
  intros [ | ]; [apply preserving_throw | ].
  apply preserving_bind; [apply filter_contours_preserving | intros r; apply preserving_ret].
Qed.

Lemma preserving_displayImageInfo (this : ImageProcessor) : preserving (displayImageInfo this).
Proof.
  unfold displayImageInfo. apply preserving_bind; [apply preserving_Mat_empty | ].
  intros [ | ]; [apply preserving_print | ].
  apply preserving_bind; [apply preserving_getImageSize | intros size].
  do 3 (apply preserving_bind; [apply preserving_print | intros _]).
  apply preserving_bind; [apply preserving_getChannels | intros n].
  apply preserving_bind; [apply preserving_print | intros _]. apply preserving_print.
Qed.

Lemma preserving_ImageProcessor_new (path : string) : preserving (ImageProcessor_new path).
Proof.
  unfold ImageProcessor_new, ImageProcessor_from.
  apply preserving_try_catch_cv; [repeat preserving_step | apply preserving_throw].
Qed.

(** No method of [ImageProcessor], and no step of [main], ever changes the
    contents of a matrix that existed before the call, whether the call
    returns or throws: the methods are [const] in depth, and in particular
    the image of the processor is never modified. *)
Theorem methods_never_overwrite (this : ImageProcessor) (path : string) (kernelSize : Z)
    (sigmaX : double) (binaryImage visualResult0 : Mat) :
  preserving (ImageProcessor_new path)
  /\ preserving (getImageSize this)
  /\ preserving (getChannels this)
  /\ preserving (convertToGray this)
  /\ preserving (applyMeanBlur this kernelSize)
  /\ preserving (applyGaussianBlur this kernelSize sigmaX)
  /\ preserving (extractLightBars this)
  /\ preserving (filterLightBars this binaryImage visualResult0)
  /\ preserving (displayImageInfo this)
  /\ preserving main_try.
Proof.
  split; [apply preserving_ImageProcessor_new | ].
  split; [apply preserving_getImageSize | ].
  split; [apply preserving_getChannels | ].
  split; [apply preserving_convertToGray | ].
  split; [apply preserving_applyMeanBlur | ].
  split; [apply preserving_applyGaussianBlur | ].
  split; [apply preserving_extractLightBars | ].
  split; [apply preserving_filterLightBars | ].
  split; [apply preserving_displayImageInfo | ].
  unfold main_try.
  apply preserving_bind; [apply preserving_print | intros _].
  apply preserving_bind; [apply preserving_ImageProcessor_new | intros processor].
  apply preserving_bind; [apply preserving_displayImageInfo | intros _].
  apply preserving_bind; [apply preserving_print | intros _].
  apply preserving_bind; [apply preserving_convertToGray | intros gray].
  apply preserving_bind; [apply preserving_print | intros _].
  apply preserving_bind; [apply preserving_applyMeanBlur | intros blurred].
  apply preserving_bind; [apply preserving_print | intros _].
  apply preserving_bind; [apply preserving_applyGaussianBlur | intros gauss].
  apply preserving_bind; [apply preserving_print | intros _].
  apply preserving_bind; [apply preserving_print | intros _].
  apply preserving_bind; [apply preserving_extractLightBars | intros mask].
  apply preserving_bind; [apply preserving_print | intros _].
  apply preserving_bind; [apply preserving_filterLightBars | intros r].
  apply preserving_ret.
Qed.

Lemma displayImageInfo_run (this : ImageProcessor) (w : World) :
  displayImageInfo this w
  = (mkWorld (heap w) (files w) (cout w ++ info_lines this w) (cerr w) (fdivs w), inr tt).
Proof.
  unfold displayImageInfo, info_lines, getImageSize, getChannels, Mat_size, Mat_channels.
  unfold bind, Mat_empty, print, load. cbn.
  destruct (image this) as [l | ]; [ | reflexivity].
  destruct (heap w !! l) as [p | ] eqn:Hl; [ | reflexivity].
  destruct (total p =? 0) eqn:Ht; [reflexivity | ].
  cbn. rewrite Hl, Ht. cbn. rewrite Hl, Ht. cbn. rewrite Hl.
  rewrite <- !app_assoc. reflexivity.
Qed.

Lemma wrap_int_small (z : Z) : in_int z -> wrap_int z = z.
Proof.
  unfold in_int, wrap_int, INT_MIN, INT_MAX. intros Hz.
  rewrite Z.mod_small by lia. lia.
Qed.

Lemma wrap_int_range (z : Z) : in_int (wrap_int z).
Proof.
  unfold in_int, wrap_int, INT_MIN, INT_MAX.
  pose proof (Z.mod_pos_bound (z - - 2 ^ 31) (2 ^ 32) ltac:(lia)). lia.
Qed.

(** [displayImageInfo] never throws, although it calls [getImageSize] and
    [getChannels], which can: it prints one line for an empty image, and
    otherwise five lines giving the path, the width (columns) and height
    (rows), the channels and the number of pixels; it changes nothing but
    the output. The number of pixels is the [int] product of the width and
    the height: it is the true count as long as that fits an [int], and its
    residue modulo [2 ^ 32] in the range of [int] otherwise. *)
Theorem displayImageInfo_prints (this : ImageProcessor) (w : World) :
  exists w',
    displayImageInfo this w = (w', inr tt)
    /\ cout w' = cout w ++ info_lines this w
    /\ (length (info_lines this w) = 1 \/ length (info_lines this w) = 5)%nat
    /\ heap w' = heap w /\ files w' = files w /\ cerr w' = cerr w /\ fdivs w' = fdivs w
    /\ forall p, load w (image this) = Some p -> total p <> 0 ->
         last (info_lines this w) = Some (LineInfoTotal (wrap_int (cols p * rows p)))
         /\ in_int (wrap_int (cols p * rows p))
         /\ (in_int (total p) -> wrap_int (cols p * rows p) = total p).
Proof.
  eexists. split; [apply displayImageInfo_run | ]. cbn.
  split; [reflexivity | ]. split.
  { unfold info_lines. destruct (load w (image this)) as [p | ]; [ | left; reflexivity].
    destruct (total p =? 0); [left | right]; reflexivity. }
  repeat (split; [reflexivity | ]).
  intros p Hl Ht. unfold info_lines. rewrite Hl.
  apply Z.eqb_neq in Ht. rewrite Ht. split; [reflexivity | ].
  split; [apply wrap_int_range | ].
  intros Hi. unfold total in *. rewrite (Z.mul_comm (cols p)). apply wrap_int_small, Hi.
Qed.

(** The constructor, whatever the reading routine does: a [cv::Exception]
    raised while reading is caught and rethrown as the program's "OpenCV
    error" exception, in the world reached; an empty matrix gives "cannot
    load image" with the path; a non-empty one is kept, after one line is
    printed. With [cv::imread], which returns an empty matrix for a file it
    cannot read, the constructor returns exactly when the file decodes to a
    non-empty image (held in a new buffer), and otherwise throws "cannot
    load image" and prints nothing. *)
Theorem constructor_outcome (path : string) (w : World) :
  (forall (cv_imread : string -> M Mat) (w1 : World),
     cv_imread path w = (w1, inl cv_Exception) ->
     ImageProcessor_from cv_imread path w
     = (w1, inl (ImageProcessorException MsgOpenCV)))
  /\ (forall (cv_imread : string -> M Mat) (w1 : World) (image : Mat),
        cv_imread path w = (w1, inr image) ->
        ImageProcessor_from cv_imread path w
        = match load w1 image with
          | Some p =>
              if total p =? 0
              then (w1, inl (ImageProcessorException (MsgLoadFailed path)))
              else (mkWorld (heap w1) (files w1) (cout w1 ++ [LineLoaded path])
                      (cerr w1) (fdivs w1),
                    inr (mkImageProcessor image path))
          | None => (w1, inl (ImageProcessorException (MsgLoadFailed path)))
          end)
  /\ (forall w' this,
        ImageProcessor_new path w = (w', inr this) ->
        exists src l,
          files w !! path = Some src /\ total (C3 src) <> 0
          /\ this = mkImageProcessor (Some l) path
          /\ (l ∉ dom (heap w)) /\ heap w' !! l = Some (C3 src)
          /\ cout w' = cout w ++ [LineLoaded path])
  /\ (forall w' e,
        ImageProcessor_new path w = (w', inl e) ->
        e = ImageProcessorException (MsgLoadFailed path)
        /\ cout w' = cout w
        /\ match files w !! path with
           | Some src => total (C3 src) = 0
           | None => True
           end).
Proof.
  split; [ | split].
  - intros cv_imread w1 Hr. unfold ImageProcessor_from, try_catch_cv, bind.
    rewrite Hr. reflexivity.
  - intros cv_imread w1 image Hr.
    unfold ImageProcessor_from, try_catch_cv, bind, Mat_empty. rewrite Hr.
    destruct (load w1 image) as [p | ]; [ | reflexivity].
    destruct (total p =? 0); reflexivity.
  - unfold ImageProcessor_new, ImageProcessor_from, try_catch_cv.
    unfold bind, imread, alloc, Mat_empty, print, throw, ret. cbn.
    destruct (files w !! path) as [src | ] eqn:Hf; cbn.
    + rewrite lookup_insert_eq. destruct (total (C3 src) =? 0) eqn:Ht.
      * split; [intros w' this E; discriminate E | ].
        intros w' e E. injection E as <- <-. apply Z.eqb_eq in Ht. auto.
      * split; [ | intros w' e E; discriminate E].
        intros w' this E. injection E as <- <-. apply Z.eqb_neq in Ht.
        exists src, (fresh (dom (heap w))). repeat split; auto.
        -- apply is_fresh.
        -- cbn. apply lookup_insert_eq.
    + split; [intros w' this E; discriminate E | ].
      intros w' e E. injection E as <- <-. auto.
Qed.

Lemma kernel_test (k : Z) :
  (k <=? 0) || (Z.rem k 2 =? 0) = true <-> k <= 0 \/ Z.even k = true.
Proof.
  rewrite orb_true_iff, Z.leb_le, Z.eqb_eq, Z.rem_mod_eq_0 by lia.
  rewrite Zeven_mod, Z.eqb_eq. reflexivity.
Qed.

(** On a non-empty colour image, [applyMeanBlur] and [applyGaussianBlur]
    throw "kernel size must be a positive odd number" exactly for a kernel
    size that is not positive or is even, and then change nothing; for a
    positive odd size they return the blurred image in a new buffer. *)
Theorem blur_kernel_validation (this : ImageProcessor) (kernelSize : Z) (sigmaX : double)
    (w : World) (src : Color) :
  load w (image this) = Some (C3 src) -> total (C3 src) <> 0 ->
  (kernelSize <= 0 \/ Z.even kernelSize = true ->
   applyMeanBlur this kernelSize w = (w, inl (ImageProcessorException MsgKernelNotOdd))
   /\ applyGaussianBlur this kernelSize sigmaX w
      = (w, inl (ImageProcessorException MsgKernelNotOdd)))
  /\ (0 < kernelSize -> Z.odd kernelSize = true ->
      applyMeanBlur this kernelSize w
      = (set_heap (<[fresh (dom (heap w)) := C3 (blur src kernelSize)]> (heap w)) w,
         inr (Some (fresh (dom (heap w)))))
      /\ applyGaussianBlur this kernelSize sigmaX w
         = (set_heap (<[fresh (dom (heap w)) := C3 (GaussianBlur src kernelSize sigmaX)]>
                        (heap w)) w,
            inr (Some (fresh (dom (heap w)))))).
Proof.
  intros Hl Hne. apply Z.eqb_neq in Hne.
  unfold applyMeanBlur, applyGaussianBlur, bind, Mat_empty, read_color. rewrite Hl, Hne.
  split.
  - intros Hbad. apply kernel_test in Hbad. rewrite Hbad. split; reflexivity.
  - intros Hpos Hodd.
    assert (Hok : (kernelSize <=? 0) || (Z.rem kernelSize 2 =? 0) = false).
    { apply not_true_is_false. rewrite kernel_test. rewrite <- Z.negb_odd, Hodd.
      intros [Hc | Hc]; [lia | discriminate Hc]. }
    rewrite Hok, Hl. split; reflexivity.
Qed.

(** On an empty image every accessor and preprocessing method throws its
    own message and changes nothing, whatever the kernel size. *)
Theorem empty_image_guards (this : ImageProcessor) (kernelSize : Z) (sigmaX : double)
    (w : World) :
  empty_in w (image this) ->
  getImageSize this w = (w, inl (ImageProcessorException MsgEmptySize))
  /\ getChannels this w = (w, inl (ImageProcessorException MsgEmptyChannels))
  /\ convertToGray this w = (w, inl (ImageProcessorException MsgEmptyGray))
  /\ applyMeanBlur this kernelSize w = (w, inl (ImageProcessorException MsgEmptyMeanBlur))
  /\ applyGaussianBlur this kernelSize sigmaX w
     = (w, inl (ImageProcessorException MsgEmptyGaussian)).
Proof.
  unfold empty_in. intros He.
  assert (E : Mat_empty (image this) w = (w, inr true)).
  { unfold Mat_empty. destruct (load w (image this)) as [p | ]; [rewrite He | ]; reflexivity. }
  unfold getImageSize, getChannels, convertToGray, applyMeanBlur, applyGaussianBlur, bind.
  rewrite E. repeat split.
Qed.

(** The detection does not use the preprocessing: after the grey
    conversion and the two blurs, [extractLightBars] computes the refined
    mask of the original image, the same as when it is called at once, and
    the image of the processor is unchanged. *)
Theorem detection_ignores_preprocessing (this : ImageProcessor) (kernelSize : Z)
    (sigmaX : double) (w : World) (src : Color) :
  load w (image this) = Some (C3 src) -> total (C3 src) <> 0 ->
  0 < kernelSize -> Z.odd kernelSize = true ->
  returns (preprocess_then_extract this kernelSize sigmaX) w
    (fun w' m => load w' m = Some (C1 (refine_mask (mask_of src)))
                 /\ load w' (image this) = Some (C3 src))
  /\ returns (extractLightBars this) w
       (fun w' m => load w' m = Some (C1 (refine_mask (mask_of src)))
                    /\ load w' (image this) = Some (C3 src)).
Proof.
  intros Hl Hne Hpos Hodd.
  assert (Hok : (kernelSize <=? 0) || (Z.rem kernelSize 2 =? 0) = false).
  { apply not_true_is_false. rewrite kernel_test. rewrite <- Z.negb_odd, Hodd.
    intros [Hc | Hc]; [lia | discriminate Hc]. }
  split.
  - unfold preprocess_then_extract.
    apply returns_bind. apply (convertToGray_returns this w src _ Hl Hne). intros w1 g F1.
    assert (L1 : load w1 (image this) = Some (C3 src)) by chase_load.
    apply returns_bind. apply (applyMeanBlur_returns this _ w1 src _ L1 Hne Hok).
    intros w2 b F2.
    assert (L2 : load w2 (image this) = Some (C3 src)) by chase_load.
    apply returns_bind. apply (applyGaussianBlur_returns this _ _ w2 src _ L2 Hne Hok).
    intros w3 gb F3.
    assert (L3 : load w3 (image this) = Some (C3 src)) by chase_load.
    apply (extractLightBars_returns this w3 src _ L3 Hne). intros w4 m F4 Lm.
    split; [exact Lm | chase_load].
  - apply (extractLightBars_returns this w src _ Hl Hne). intros w4 m F4 Lm.
    split; [exact Lm | chase_load].
Qed.

(** The three colour ranges are pairwise disjoint: a pixel is claimed by at
    most one of the two red masks and the blue mask, so the union of the
    masks is also their sum. *)
Theorem color_ranges_disjoint (q : Vec3b) :
  let r1 := in_bounds red_lower1 red_upper1 q in
  let r2 := in_bounds red_lower2 red_upper2 q in
  let b := in_bounds blue_lower blue_upper q in
  r1 && r2 = false /\ r1 && b = false /\ r2 && b = false
  /\ (if in_any_range q then 255 else 0)
     = (if r1 then 255 else 0) + (if r2 then 255 else 0) + (if b then 255 else 0).
Proof.
  intros r1 r2 b.
  assert (D12 : r1 && r2 = false).
  { apply not_true_is_false. subst r1 r2. unfold in_bounds. cbn [v0 v1 v2 red_lower1 red_upper1 red_lower2 red_upper2].
    rewrite !andb_true_iff, !Z.leb_le. lia. }
  assert (D1b : r1 && b = false).
  { apply not_true_is_false. subst r1 b. unfold in_bounds. cbn [v0 v1 v2 red_lower1 red_upper1 blue_lower blue_upper].
    rewrite !andb_true_iff, !Z.leb_le. lia. }
  assert (D2b : r2 && b = false).
  { apply not_true_is_false. subst r2 b. unfold in_bounds. cbn [v0 v1 v2 red_lower2 red_upper2 blue_lower blue_upper].
    rewrite !andb_true_iff, !Z.leb_le. lia. }
  repeat split; try assumption.
  unfold in_any_range. fold r1 r2 b.
  destruct r1, r2, b; try reflexivity; discriminate.
Qed.

(** The colour mask is a binary mask of the size of the image: it has the
    shape of the image and each of its elements is 0 or 255; on a non-empty
    colour image [extractLightBars] never throws (the unions never meet a
    size mismatch), prints one line and returns the refined mask in a new
    buffer. *)
Theorem color_mask_binary (this : ImageProcessor) (w : World) (src : Color) :
  load w (image this) = Some (C3 src) -> total (C3 src) <> 0 ->
  shape (mask_of src) = shape src
  /\ (forall i j v, pixel (mask_of src) i j = Some v -> v = 0 \/ v = 255)
  /\ color_mask src = Some (mask_of src)
  /\ extractLightBars this w
     = (mkWorld (<[fresh (dom (heap w)) := C1 (refine_mask (mask_of src))]> (heap w))
          (files w) (cout w ++ [LineExtracted]) (cerr w) (fdivs w),
        inr (Some (fresh (dom (heap w))))).
Proof.
  intros Hl Hne. split; [ | split; [ | split]].
  - unfold shape, mask_of. rewrite map_map. apply map_ext. intros row. apply length_map.
  - intros i j v. unfold mask_of. rewrite pixel_map.
    destruct (pixel src i j) as [q | ]; cbn; [ | discriminate].
    intros [= <-]. destruct (in_any_range (bgr2hsv q)); auto.
  - apply color_mask_eq.
  - apply Z.eqb_neq in Hne.
    unfold extractLightBars, bind, Mat_empty, read_color. rewrite Hl, Hne.
    cbv beta iota. rewrite Hl. cbv beta iota. rewrite color_mask_eq. reflexivity.
Qed.

Lemma summaries_ranks (l : list Contour) :
  forall k, map rank_of (summaries k l) = map Some (seq k (length l)).
Proof.
  induction l as [ | c l IH]; intros k; cbn; [reflexivity | ].
  rewrite IH. reflexivity.
Qed.

(** [filterLightBars] evaluates one division per contour, accepted or not;
    it reports at most as many light bars as there are contours, numbers
    them 1, 2, 3, ... in order, and the final count is the number of summary
    lines. *)
Theorem light_bars_are_numbered (this : ImageProcessor) (binaryImage visualResult0 : Mat)
    (w : World) (p : Pixels) (g : Gray) :
  load w (image this) = Some p ->
  load w binaryImage = Some (C1 g) ->
  total (C1 g) <> 0 ->
  exists w' (lines : list Line) (n k : nat),
    fst (filterLightBars this binaryImage visualResult0 w) = w'
    /\ cout w' = cout w ++ [LineFound n] ++ lines ++ [LineFiltered k]
    /\ n = length (findContours g)
    /\ (k <= n)%nat
    /\ map rank_of lines = map Some (seq 1 k)
    /\ fdivs w' = fdivs w ++ map ratio_operands (findContours g)
    /\ length (fdivs w') = (length (fdivs w) + n)%nat.
Proof.
  intros Hp Hg Hne.
  rewrite (filterLightBars_run this binaryImage visualResult0 w p g Hp Hg Hne).
  exists (after_filter p (findContours g) w),
         (summaries 1 (List.filter accepts (findContours g))),
         (length (findContours g)), (length (List.filter accepts (findContours g))).
  split; [reflexivity | ]. split; [reflexivity | ]. split; [reflexivity | ].
  split; [apply filter_length_le | ].
  split; [apply summaries_ranks | ].
  split; [reflexivity | ].
  cbn. rewrite length_app, length_map. reflexivity.
Qed.

End MethodProperties.

(** ** The output and the failures of [main] *)

Section Outcomes.
Context `{OpenCV}.
Local Open Scope Z_scope.

Lemma outcome_bind {A B : Type} (c : M A) (k : A -> M B) (w : World) (L1 L2 : list Line)
    (R : World -> Exn + B -> Prop) :
  outcome c w L1 (fun w1 r => exists a, r = inr a /\ outcome (k a) w1 L2 R) ->
  outcome (bind c k) w (L1 ++ L2) R.
Proof.
  intros (w1 & r & Hc & Ho & a & -> & w2 & r2 & Hk & Ho2 & HR).
  exists w2, r2. split; [unfold bind; rewrite Hc; exact Hk | ].
  split; [rewrite Ho2, Ho, app_assoc; reflexivity | exact HR].
Qed.

Lemma outcome_ret {A : Type} (a : A) (w : World) (R : World -> Exn + A -> Prop) :
  R w (inr a) -> outcome (ret a) w [] R.
Proof. intros HR. exists w, (inr a). rewrite app_nil_r. auto. Qed.

Lemma outcome_print (l : Line) (w : World) (R : World -> Exn + unit -> Prop) :
  (forall w', frame w w' -> R w' (inr tt)) -> outcome (print l) w [l] R.
Proof.
  intros HR. eexists _, _. split; [reflexivity | ]. split; [reflexivity | ].
  apply HR. repeat split; auto.
Qed.

Lemma outcome_silent {A : Type} (c : M A) (w : World) (R : World -> Exn + A -> Prop) :
  returns c w (fun w' a => cout w' = cout w /\ R w' (inr a)) -> outcome c w [] R.
Proof.
  intros (w' & a & Hc & Ho & HR). exists w', (inr a). rewrite app_nil_r. auto.
Qed.

Lemma alloc_silent (p : Pixels) (w : World) (P : World -> Mat -> Prop) :
  (forall w' m, frame w w' -> cout w' = cout w -> load w' m = Some p -> P w' m) ->
  returns (alloc p) w P.
Proof.
  intros HP. eexists _, _. split; [reflexivity | ]. apply HP.
  - repeat split; auto. intros l q Hl. cbn.
    rewrite lookup_insert_ne; [exact Hl | ].
    intros E. apply (is_fresh (dom (heap w))). rewrite E. eapply elem_of_dom_2, Hl.
  - reflexivity.
  - cbn. apply lookup_insert_eq.
Qed.

Lemma convertToGray_silent (this : ImageProcessor) (w : World) (src : Color)
    (R : World -> Exn + Mat -> Prop) :
  load w (image this) = Some (C3 src) -> total (C3 src) <> 0 ->
  (forall w' m, frame w w' -> R w' (inr m)) ->
  outcome (convertToGray this) w [] R.
Proof.
  intros Hl Hne HR. apply outcome_silent. unfold convertToGray.
  apply returns_bind. apply (returns_Mat_empty _ w _ _ Hl Hne).
  apply returns_bind. apply (returns_read_color _ w src _ Hl).
  apply alloc_silent. intros w' m F Ho _. split; [exact Ho | apply HR, F].
Qed.

Lemma applyMeanBlur_silent (this : ImageProcessor) (k : Z) (w : World) (src : Color)
    (R : World -> Exn + Mat -> Prop) :
  load w (image this) = Some (C3 src) -> total (C3 src) <> 0 ->
  (k <=? 0) || (Z.rem k 2 =? 0) = false ->
  (forall w' m, frame w w' -> R w' (inr m)) ->
  outcome (applyMeanBlur this k) w [] R.
Proof.
  intros Hl Hne Hk HR. apply outcome_silent. unfold applyMeanBlur.
  apply returns_bind. apply (returns_Mat_empty _ w _ _ Hl Hne). rewrite Hk.
  apply returns_bind. apply (returns_read_color _ w src _ Hl).
  apply alloc_silent. intros w' m F Ho _. split; [exact Ho | apply HR, F].
Qed.

Lemma applyGaussianBlur_silent (this : ImageProcessor) (k : Z) (s : double) (w : World)
    (src : Color) (R : World -> Exn + Mat -> Prop) :
  load w (image this) = Some (C3 src) -> total (C3 src) <> 0 ->
  (k <=? 0) || (Z.rem k 2 =? 0) = false ->
  (forall w' m, frame w w' -> R w' (inr m)) ->
  outcome (applyGaussianBlur this k s) w [] R.
Proof.
  intros Hl Hne Hk HR. apply outcome_silent. unfold applyGaussianBlur.
  apply returns_bind. apply (returns_Mat_empty _ w _ _ Hl Hne). rewrite Hk.
  apply returns_bind. apply (returns_read_color _ w src _ Hl).
  apply alloc_silent. intros w' m F Ho _. split; [exact Ho | apply HR, F].
Qed.

Lemma extractLightBars_outcome (this : ImageProcessor) (w : World) (src : Color)
    (R : World -> Exn + Mat -> Prop) :
  load w (image this) = Some (C3 src) -> total (C3 src) <> 0 ->
  (forall w' m, frame w w' ->
     load w' m = Some (C1 (refine_mask (mask_of src))) -> R w' (inr m)) ->
  outcome (extractLightBars this) w [LineExtracted] R.
Proof.
  intros Hl Hne HR. apply Z.eqb_neq in Hne.
  eexists _, _. split.
  - unfold extractLightBars, bind, Mat_empty, read_color. rewrite Hl, Hne.
    cbv beta iota. rewrite Hl. cbv beta iota. rewrite color_mask_eq. reflexivity.
  - split; [reflexivity | ]. apply HR.
    + repeat split; auto. intros l q Hq. cbn.
      rewrite lookup_insert_ne; [exact Hq | ].
      intros E. apply (is_fresh (dom (heap w))). rewrite E. eapply elem_of_dom_2, Hq.
    + cbn. apply lookup_insert_eq.
Qed.

Lemma ImageProcessor_new_outcome (path : string) (w : World) (src : Color)
    (R : World -> Exn + ImageProcessor -> Prop) :
  files w !! path = Some src -> total (C3 src) <> 0 ->
  (forall w' this, frame w w' -> load w' (image this) = Some (C3 src) ->
                   imagePath this = path -> R w' (inr this)) ->
  outcome (ImageProcessor_new path) w [LineLoaded path] R.
Proof.
  intros Hf Hne HR. apply Z.eqb_neq in Hne.
  eexists _, _. split.
  - unfold ImageProcessor_new, ImageProcessor_from, try_catch_cv.
    unfold bind, imread, alloc, Mat_empty, print, ret. rewrite Hf.
    cbn. rewrite lookup_insert_eq, Hne. reflexivity.
  - split; [reflexivity | ]. apply HR; [ | cbn; apply lookup_insert_eq | reflexivity].
    repeat split; auto. intros l q Hq. cbn.
    rewrite lookup_insert_ne; [exact Hq | ].
    intros E. apply (is_fresh (dom (heap w))). rewrite E. eapply elem_of_dom_2, Hq.
Qed.

Ltac chase_load2 :=
  repeat first [eassumption | eapply frame_load; [eassumption | ]].

Ltac next := eexists; split; [reflexivity | ].

(** The run of [main_try] up to the call of [filterLightBars]. *)
Lemma main_try_prefix (w : World) (src : Color) (L : list Line)
    (R : World -> Exn + Results -> Prop) :
  files w !! "hero.png" = Some src -> total (C3 src) <> 0 ->
  (forall w1 this gray blurred gauss lbm,
     frame w w1 ->
     load w1 (image this) = Some (C3 src) ->
     load w1 lbm = Some (C1 (refine_mask (mask_of src))) ->
     outcome (let* r := filterLightBars this lbm None in
              ret (mkResults this gray blurred gauss lbm (fst r) (snd r)))%prog w1 L R) ->
  outcome main_try w (prefix_lines src ++ L) R.
Proof.
  intros Hf Hsrc HR. unfold main_try, prefix_lines.
  apply (outcome_bind _ _ w [LineMain BannerTitle] _).
  apply outcome_print. intros w1 F1. next.
  apply (outcome_bind _ _ w1 [LineLoaded "hero.png"] _).
  apply (ImageProcessor_new_outcome _ w1 src);
    [destruct F1 as (_ & -> & _); exact Hf | exact Hsrc | ].
  intros w2 this F2 Limg Hpath. next.
  apply (outcome_bind _ _ w2
           [LineInfoHeader; LineInfoPath "hero.png";
            LineInfoSize (cols (C3 src)) (rows (C3 src)); LineInfoChannels 3;
            LineInfoTotal (int_mul (cols (C3 src)) (rows (C3 src)))] _).
  assert (Hinfo : info_lines this w2
                  = [LineInfoHeader; LineInfoPath "hero.png";
                     LineInfoSize (cols (C3 src)) (rows (C3 src)); LineInfoChannels 3;
                     LineInfoTotal (int_mul (cols (C3 src)) (rows (C3 src)))]).
  { unfold info_lines. rewrite Limg, Hpath.
    apply Z.eqb_neq in Hsrc. rewrite Hsrc. reflexivity. }
  eexists _, _. split; [apply displayImageInfo_run | ]. rewrite Hinfo.
  split; [reflexivity | ]. next.
  set (w3 := mkWorld (heap w2) (files w2) _ (cerr w2) (fdivs w2)).
  assert (F3 : frame w2 w3) by (repeat split; auto).
  apply (outcome_bind _ _ w3 [LineMain BannerPreprocess] _).
  apply outcome_print. intros w4 F4. next.
  assert (L4 : load w4 (image this) = Some (C3 src)) by chase_load2.
  apply (outcome_bind _ _ w4 [] _).
  apply (convertToGray_silent this w4 src _ L4 Hsrc). intros w5 gray F5. next.
  apply (outcome_bind _ _ w5 [LineMain OkGray] _).
  apply outcome_print. intros w6 F6. next.
  assert (L6 : load w6 (image this) = Some (C3 src)) by chase_load2.
  apply (outcome_bind _ _ w6 [] _).
  apply (applyMeanBlur_silent this 5 w6 src _ L6 Hsrc eq_refl). intros w7 blurred F7. next.
  apply (outcome_bind _ _ w7 [LineMain OkMeanBlur] _).
  apply outcome_print. intros w8 F8. next.
  assert (L8 : load w8 (image this) = Some (C3 src)) by chase_load2.
  apply (outcome_bind _ _ w8 [] _).
  apply (applyGaussianBlur_silent this 5 _ w8 src _ L8 Hsrc eq_refl). intros w9 gauss F9. next.
  apply (outcome_bind _ _ w9 [LineMain OkGaussian] _).
  apply outcome_print. intros w10 F10. next.
  apply (outcome_bind _ _ w10 [LineMain BannerDetect] _).
  apply outcome_print. intros w11 F11. next.
  assert (L11 : load w11 (image this) = Some (C3 src)) by chase_load2.
  apply (outcome_bind _ _ w11 [LineExtracted] _).
  apply (extractLightBars_outcome this w11 src _ L11 Hsrc). intros w12 lbm F12 Lmask. next.
  apply (outcome_bind _ _ w12 [LineMain BannerFilter] _).
  apply outcome_print. intros w13 F13. next.
  apply HR.
  - repeat (eapply frame_trans; [eassumption | ]). apply frame_refl.
  - chase_load2.
  - chase_load2.
Qed.

(** The run of [main_try] when the constructor throws. *)
Lemma main_try_constructor_throws (w w1 : World) (e : Exn) :
  ImageProcessor_new "hero.png" (fst (print (LineMain BannerTitle) w)) = (w1, inl e) ->
  main_try w = (w1, inl e).
Proof.
  intros Hc. unfold main_try. unfold bind at 1. unfold print at 1.
  unfold bind at 1. unfold print in Hc. cbn [fst] in Hc. rewrite Hc. reflexivity.
Qed.

(** The run of [main_try] when the refined mask is empty. *)
Lemma main_try_mask_empty (w : World) (src : Color) :
  files w !! "hero.png" = Some src -> total (C3 src) <> 0 ->
  total (C1 (refine_mask (mask_of src))) = 0 ->
  outcome main_try w (prefix_lines src)
    (fun _ r => r = inl (ImageProcessorException MsgEmptyBinary)).
Proof.
  intros Hf Hsrc Hmask.
  rewrite <- (app_nil_r (prefix_lines src)).
  apply (main_try_prefix w src [] _ Hf Hsrc).
  intros w1 this gray blurred gauss lbm _ _ Lm.
  eexists _, _. split.
  - unfold filterLightBars, bind, Mat_empty. rewrite Lm.
    apply Z.eqb_eq in Hmask. rewrite Hmask. reflexivity.
  - split; [symmetry; apply app_nil_r | reflexivity].
Qed.

(** The run of [main_try] on an image with a non-empty mask. *)
Lemma main_try_completes (w : World) (src : Color) :
  files w !! "hero.png" = Some src -> total (C3 src) <> 0 ->
  total (C1 (refine_mask (mask_of src))) <> 0 ->
  outcome main_try w (main_lines src) (fun _ r => exists res, r = inr res).
Proof.
  intros Hf Hsrc Hmask. unfold main_lines. cbv zeta.
  apply (main_try_prefix w src _ _ Hf Hsrc).
  intros w1 this gray blurred gauss lbm _ Li Lm.
  eexists _, _. split.
  - unfold bind.
    rewrite (filterLightBars_run this lbm None w1 (C3 src) _ Li Lm Hmask). reflexivity.
  - split; [reflexivity | ]. eexists. reflexivity.
Qed.

(** Steps 1 to 5 of [main] fail in two places only. Either the
    constructor throws, just after the title has been printed, and its
    exception leaves the steps as it is. Or the image is loaded and its
    refined mask is empty: [filterLightBars] throws "input binary image is
    empty" after the whole preprocessing and the detection have been
    reported. No other method called by [main] throws, and every exception
    that leaves these steps is an [ImageProcessorException], the one the
    first [catch] clause of [main] reports. *)
Theorem main_failure_modes (w w' : World) (e : Exn) :
  main_try w = (w', inl e) ->
  (exists msg, e = ImageProcessorException msg)
  /\ (ImageProcessor_new "hero.png" (fst (print (LineMain BannerTitle) w)) = (w', inl e)
      \/ (e = ImageProcessorException MsgEmptyBinary
          /\ exists src,
               files w !! "hero.png" = Some src /\ total (C3 src) <> 0
               /\ total (C1 (refine_mask (mask_of src))) = 0
               /\ cout w' = cout w ++ prefix_lines src)).
Proof.
  intros Hrun.
  assert (Hcases :
            match files w !! "hero.png" with
            | Some src => total (C3 src) = 0
            | None => True
            end
            \/ exists src, files w !! "hero.png" = Some src /\ total (C3 src) <> 0).
  { destruct (files w !! "hero.png") as [src | ]; [ | left; exact I].
    destruct (Z.eq_dec (total (C3 src)) 0) as [E | N]; [left; exact E | ].
    right. exists src. split; [reflexivity | exact N]. }
  destruct Hcases as [Hfile | (src & Hf & Hsrc)].
  - destruct (ImageProcessor_new_load_failed "hero.png"
                (fst (print (LineMain BannerTitle) w)) Hfile) as (w1 & Hc & _).
    pose proof (main_try_constructor_throws w w1 _ Hc) as Hm.
    rewrite Hm in Hrun. injection Hrun as <- <-.
    split; [eexists; reflexivity | left; exact Hc].
  - destruct (Z.eq_dec (total (C1 (refine_mask (mask_of src)))) 0) as [E | N].
    + destruct (main_try_mask_empty w src Hf Hsrc E) as (w1 & r & Hm & Ho & ->).
      rewrite Hm in Hrun. injection Hrun as <- <-.
      split; [eexists; reflexivity | right].
      split; [reflexivity | ]. exists src. auto.
    + destruct (main_try_completes w src Hf Hsrc N) as (w1 & r & Hm & _ & res & ->).
      rewrite Hm in Hrun. discriminate Hrun.
Qed.

(** A run of steps 1 to 5 of [main] on an image whose refined mask is not
    empty completes, and writes to [std::cout] exactly what [main_lines]
    lists, in this order: the title, the loading and the five information
    lines, the preprocessing and detection reports, the number of contours,
    one numbered summary for each accepted contour and the final count.
    Nothing is written to [std::cerr]. *)
Theorem main_prints (w : World) (src : Color) :
  files w !! "hero.png" = Some src -> total (C3 src) <> 0 ->
  total (C1 (refine_mask (mask_of src))) <> 0 ->
  exists w' res,
    main_try w = (w', inr res)
    /\ cout w' = cout w ++ main_lines src
    /\ cerr w' = cerr w.
Proof.
  intros Hf Hsrc Hmask.
  destruct (main_try_completes w src Hf Hsrc Hmask) as (w1 & r & Hm & Ho & res & ->).
  exists w1, res. split; [exact Hm | ]. split; [exact Ho | ].
  destruct (main_try_returns w src (fun w' _ => cerr w' = cerr w) Hf Hsrc Hmask)
    as (w2 & res2 & Hm2 & Hc); [intros; assumption | ].
  rewrite Hm in Hm2. injection Hm2 as <- <-. exact Hc.
Qed.

(** The cast [(int)area] of the label is executed for accepted contours
    only, whose area is strictly between 50 and 5000: the cast is in range,
    and it yields the integer part of the area, between 50 and 4999. *)
Theorem accepted_area_cast (c : Contour) :
  valid (contourArea c) = true -> accepts c = true ->
  to_int (contourArea c) = Qfloor (value (contourArea c))
  /\ 50 <= to_int (contourArea c) <= 4999.
Proof.
  intros Va Hacc. unfold accepts, isValidLightBar in Hacc.
  repeat (apply andb_prop in Hacc; destruct Hacc as [Hacc ?]).
  apply to_int_in_window; assumption.
Qed.

End Outcomes.

(** ** The further properties on the executable instance *)

Section MoreInstances.
Import Demo.
Local Open Scope Z_scope.

(** The pixel count printed for a 65536 by 32768 image. *)
Example pixel_count_wraps : int_mul 65536 32768 = INT_MIN.
Proof. vm_compute. reflexivity. Qed.

Lemma int_conversion_exact_witness :
  in_int 30
  /\ valid (of_int 30) = true /\ is_finite (of_int 30) = true
  /\ (value (of_int 30) == inject_Z 30)%Q.
Proof.
  assert (Hi : in_int 30) by (unfold in_int, INT_MIN, INT_MAX; lia).
  split; [exact Hi | ]. exact (int_conversion_exact 30 Hi).
Defined.

Lemma ratio_within_one_ulp_witness :
  0 < 30 /\ 0 < 7 /\ in_int 30 /\ in_int 7
  /\ (let r := fdiv (of_int 30) (of_int 7) in
      valid r = true /\ is_finite r = true
      /\ (value r * (1 - (1 # 4503599627370496)) < inject_Z 30 / inject_Z 7)%Q
      /\ (inject_Z 30 / inject_Z 7 < value r * (1 + (1 # 4503599627370496)))%Q).
Proof.
  assert (Hh : 0 < 30) by lia.
  assert (Hw : 0 < 7) by lia.
  assert (Ih : in_int 30) by (unfold in_int, INT_MIN, INT_MAX; lia).
  assert (Iw : in_int 7) by (unfold in_int, INT_MIN, INT_MAX; lia).
  split; [exact Hh | ]. split; [exact Hw | ]. split; [exact Ih | ]. split; [exact Iw | ].
  exact (ratio_within_one_ulp 30 7 Hh Hw Ih Iw).
Defined.

Lemma accepted_area_cast_witness :
  valid (contourArea bar_contour) = true
  /\ accepts bar_contour = true
  /\ to_int (contourArea bar_contour) = Qfloor (value (contourArea bar_contour))
  /\ 50 <= to_int (contourArea bar_contour) <= 4999.
Proof.
  assert (Hv : valid (contourArea bar_contour) = true) by reflexivity.
  assert (Ha : accepts bar_contour = true) by (vm_compute; reflexivity).
  split; [exact Hv | ]. split; [exact Ha | ].
  exact (accepted_area_cast bar_contour Hv Ha).
Defined.

Lemma displayImageInfo_prints_witness :
  load world1 (image processor1) = Some (C3 bar_image)
  /\ total (C3 bar_image) <> 0
  /\ in_int (total (C3 bar_image))
  /\ last (info_lines processor1 world1)
     = Some (LineInfoTotal (wrap_int (cols (C3 bar_image) * rows (C3 bar_image))))
  /\ wrap_int (cols (C3 bar_image) * rows (C3 bar_image)) = total (C3 bar_image).
Proof.
  assert (Hl : load world1 (image processor1) = Some (C3 bar_image)) by reflexivity.
  assert (Hi : in_int (total (C3 bar_image)))
    by (unfold in_int, INT_MIN, INT_MAX; vm_compute; split; discriminate).
  split; [exact Hl | ]. split; [exact bar_image_not_empty | ]. split; [exact Hi | ].
  destruct (displayImageInfo_prints processor1 world1) as (w' & _ & _ & _ & _ & _ & _ & _ & Hp).
  destruct (Hp (C3 bar_image) Hl bar_image_not_empty) as (Hlast & _ & Hsmall).
  split; [exact Hlast | exact (Hsmall Hi)].
Defined.

Lemma constructor_outcome_witness :
  ImageProcessor_from (fun _ => throw cv_Exception) "hero.png" world0
  = (world0, inl (ImageProcessorException MsgOpenCV))
  /\ exists w' this,
       ImageProcessor_new "hero.png" world0 = (w', inr this)
       /\ exists src l,
            files world0 !! "hero.png" = Some src /\ total (C3 src) <> 0
            /\ this = mkImageProcessor (Some l) "hero.png"
            /\ (l ∉ dom (heap world0)) /\ heap w' !! l = Some (C3 src)
            /\ cout w' = cout world0 ++ [LineLoaded "hero.png"].
Proof.
  split.
  - exact (proj1 (constructor_outcome "hero.png" world0)
             (fun _ => throw cv_Exception) world0 eq_refl).
  - destruct (ImageProcessor_new "hero.png" world0) as [w' [e | this]] eqn:E.
    + vm_compute in E. discriminate E.
    + exists w', this. split; [reflexivity | ].
      exact (proj1 (proj2 (proj2 (constructor_outcome "hero.png" world0))) w' this E).
Defined.

Lemma blur_kernel_validation_witness :
  load world1 (image processor1) = Some (C3 bar_image)
  /\ total (C3 bar_image) <> 0
  /\ applyMeanBlur processor1 4 world1
     = (world1, inl (ImageProcessorException MsgKernelNotOdd))
  /\ applyGaussianBlur processor1 0 (of_int 1) world1
     = (world1, inl (ImageProcessorException MsgKernelNotOdd))
  /\ applyMeanBlur processor1 5 world1
     = (set_heap (<[fresh (dom (heap world1)) := C3 (blur bar_image 5)]> (heap world1))
          world1,
        inr (Some (fresh (dom (heap world1))))).
Proof.
  assert (Hl : load world1 (image processor1) = Some (C3 bar_image)) by reflexivity.
  split; [exact Hl | ]. split; [exact bar_image_not_empty | ].
  split; [ | split].
  - exact (proj1 (proj1 (blur_kernel_validation processor1 4 (of_int 1) world1 bar_image
                           Hl bar_image_not_empty) (or_intror eq_refl))).
  - assert (H0 : 0 <= 0) by lia.
    exact (proj2 (proj1 (blur_kernel_validation processor1 0 (of_int 1) world1 bar_image
                           Hl bar_image_not_empty) (or_introl H0))).
  - assert (H5 : 0 < 5) by lia.
    exact (proj1 (proj2 (blur_kernel_validation processor1 5 (of_int 1) world1 bar_image
                           Hl bar_image_not_empty) H5 eq_refl)).
Defined.

Lemma empty_image_guards_witness :
  empty_in world_empty (image processor1)
  /\ getImageSize processor1 world_empty
     = (world_empty, inl (ImageProcessorException MsgEmptySize))
  /\ getChannels processor1 world_empty
     = (world_empty, inl (ImageProcessorException MsgEmptyChannels))
  /\ convertToGray processor1 world_empty
     = (world_empty, inl (ImageProcessorException MsgEmptyGray))
  /\ applyMeanBlur processor1 5 world_empty
     = (world_empty, inl (ImageProcessorException MsgEmptyMeanBlur))
  /\ applyGaussianBlur processor1 5 (of_int 1) world_empty
     = (world_empty, inl (ImageProcessorException MsgEmptyGaussian)).
Proof.
  assert (He : empty_in world_empty (image processor1)) by reflexivity.
  split; [exact He | ].
  exact (empty_image_guards processor1 5 (of_int 1) world_empty He).
Defined.

Lemma detection_ignores_preprocessing_witness :
  load world1 (image processor1) = Some (C3 bar_image)
  /\ total (C3 bar_image) <> 0 /\ 0 < 5 /\ Z.odd 5 = true
  /\ returns (preprocess_then_extract processor1 5 (of_int 1)) world1
       (fun w' m => load w' m = Some (C1 (refine_mask (mask_of bar_image)))
                    /\ load w' (image processor1) = Some (C3 bar_image))
  /\ returns (extractLightBars processor1) world1
       (fun w' m => load w' m = Some (C1 (refine_mask (mask_of bar_image)))
                    /\ load w' (image processor1) = Some (C3 bar_image)).
Proof.
  assert (Hl : load world1 (image processor1) = Some (C3 bar_image)) by reflexivity.
  assert (H5 : 0 < 5) by lia.
  split; [exact Hl | ]. split; [exact bar_image_not_empty | ].
  split; [exact H5 | ]. split; [reflexivity | ].
  exact (detection_ignores_preprocessing processor1 5 (of_int 1) world1 bar_image
           Hl bar_image_not_empty H5 eq_refl).
Defined.

Lemma color_mask_binary_witness :
  load world1 (image processor1) = Some (C3 bar_image)
  /\ total (C3 bar_image) <> 0
  /\ shape (mask_of bar_image) = shape bar_image
  /\ color_mask bar_image = Some (mask_of bar_image)
  /\ extractLightBars processor1 world1
     = (mkWorld (<[fresh (dom (heap world1)) := C1 (refine_mask (mask_of bar_image))]>
                   (heap world1))
          (files world1) (cout world1 ++ [LineExtracted]) (cerr world1) (fdivs world1),
        inr (Some (fresh (dom (heap world1))))).
Proof.
  assert (Hl : load world1 (image processor1) = Some (C3 bar_image)) by reflexivity.
  split; [exact Hl | ]. split; [exact bar_image_not_empty | ].
  destruct (color_mask_binary processor1 world1 bar_image Hl bar_image_not_empty)
    as (Hs & _ & Hm & Hr).
  split; [exact Hs | ]. split; [exact Hm | exact Hr].
Defined.

Lemma light_bars_are_numbered_witness :
  load world1 (image processor1) = Some (C3 bar_image)
  /\ load world1 (Some 1%nat) = Some (C1 bar_mask)
  /\ total (C1 bar_mask) <> 0
  /\ exists w' (lines : list Line) (n k : nat),
       fst (filterLightBars processor1 (Some 1%nat) None world1) = w'
       /\ cout w' = cout world1 ++ [LineFound n] ++ lines ++ [LineFiltered k]
       /\ n = length (findContours bar_mask)
       /\ (k <= n)%nat
       /\ map rank_of lines = map Some (seq 1 k)
       /\ fdivs w' = fdivs world1 ++ map ratio_operands (findContours bar_mask)
       /\ length (fdivs w') = (length (fdivs world1) + n)%nat.
Proof.
  split; [reflexivity | ]. split; [reflexivity | ]. split; [exact bar_mask_not_empty | ].
  exact (light_bars_are_numbered processor1 (Some 1%nat) None world1 (C3 bar_image) bar_mask
           eq_refl eq_refl bar_mask_not_empty).
Defined.

Lemma main_failure_modes_witness :
  let w := mkWorld ∅ ∅ [] [] [] in
  let w' := mkWorld ∅ ∅ [LineMain BannerTitle] [] [] in
  let e := ImageProcessorException (MsgLoadFailed "hero.png") in
  main_try w = (w', inl e)
  /\ (exists msg, e = ImageProcessorException msg)
  /\ (ImageProcessor_new "hero.png" (fst (print (LineMain BannerTitle) w)) = (w', inl e)
      \/ (e = ImageProcessorException MsgEmptyBinary
          /\ exists src,
               files w !! "hero.png" = Some src /\ total (C3 src) <> 0
               /\ total (C1 (refine_mask (mask_of src))) = 0
               /\ cout w' = cout w ++ prefix_lines src)).
Proof.
  intros w w' e.
  assert (Hrun : main_try w = (w', inl e)) by (vm_compute; reflexivity).
  split; [exact Hrun | ]. exact (main_failure_modes w w' e Hrun).
Defined.

Lemma main_prints_witness :
  files world0 !! "hero.png" = Some bar_image
  /\ total (C3 bar_image) <> 0
  /\ total (C1 (refine_mask (mask_of bar_image))) <> 0
  /\ exists w' res,
       main_try world0 = (w', inr res)
       /\ cout w' = cout world0 ++ main_lines bar_image
       /\ cerr w' = cerr world0.
Proof.
  split; [reflexivity | ]. split; [exact bar_image_not_empty | ].
  split; [exact bar_mask_not_empty | ].
  exact (main_prints world0 bar_image eq_refl bar_image_not_empty bar_mask_not_empty).
Defined.

End MoreInstances.
